(** * cimiutils: the attribute reconciliation helpers and the resource probe

    A shallow embedding of [cimi/cimiapp/cimiutils.py].

    Python objects live in a store: a dict or a list is a reference to a
    store cell, so that two names can denote the same object and an in-place
    update through one is seen through the other.  Scalars are immediate.
    Dict keys are strings (the documents come from parsed JSON and the keys
    of [match_up] come from splitting a path).  Floats are left out. *)

From Stdlib Require Import ZArith Ascii String List.
From stdpp Require Import gmap strings list fin_maps.

Open Scope string_scope.
Open Scope list_scope.

(** ** Values, objects and the store *)

Definition loc := nat.

Inductive val :=
  | VNone
  | VBool (b : bool)
  | VInt (z : Z)
  | VStr (s : string)
  | VRef (l : loc).

Inductive obj :=
  | ODict (m : gmap string val)
  | OList (xs : list val).

Abbreviation heap := (gmap loc obj).

Global Instance val_eq_dec : EqDecision val.
Proof. solve_decision. Defined.

(** The exceptions the helpers can raise.  [RecursionError] is the
    interpreter's recursion limit.  The failures of the HTTP library are
    told apart by the call that raises them, whatever their Python class
    ([socket.error], [BadStatusLine], [IncompleteRead], ...):
    [TransportError] is raised by [conn.request] (the backend cannot be
    reached, the request cannot be sent), [ResponseError] by
    [conn.getresponse] and [ReadError] by [res.read].  [InvalidRef] marks a
    reference to no object, which no Python state contains. *)
Inductive exn :=
  | AttributeError
  | TypeError
  | ValueError
  | RecursionError
  | TransportError
  | ResponseError
  | ReadError
  | InvalidRef.

Inductive res (A : Type) :=
  | Ok (a : A)
  | Raise (e : exn).
Arguments Ok {A} a.
Arguments Raise {A} e.

Definition res_bind {A B} (r : res A) (k : A -> res B) : res B :=
  match r with
  | Ok a => k a
  | Raise e => Raise e
  end.

Notation "x <-? r ; k" := (res_bind r (fun x => k))
  (at level 100, r at next level, right associativity).

(** A command runs on a state and leaves a state, also when it raises.
    The reconciliation helpers run on the store ([M]), the probe on the
    connection to the backend. *)
Definition ST (S A : Type) := S -> S * res A.

Definition ret {S A} (a : A) : ST S A := fun s => (s, Ok a).
Definition raise {S A} (e : exn) : ST S A := fun s => (s, Raise e).
Definition bind {S A B} (c : ST S A) (k : A -> ST S B) : ST S B :=
  fun s => match c s with
           | (s', Ok a) => k a s'
           | (s', Raise e) => (s', Raise e)
           end.
Definition read {S A} (f : S -> res A) : ST S A := fun s => (s, f s).

Notation "x <- c ;; k" := (bind c (fun x => k))
  (at level 100, c at next level, right associativity).
Notation "c ;;; k" := (bind c (fun _ => k))
  (at level 100, right associativity).

Abbreviation M := (ST heap).

(** ** Python primitives used by the helpers *)

(** Truth value testing: [if value:]. *)
Definition truthy (h : heap) (v : val) : bool :=
  match v with
  | VNone => false
  | VBool b => b
  | VInt z => negb (Z.eqb z 0)
  | VStr s => negb (String.eqb s "")
  | VRef l =>
      match h !! l with
      | Some (ODict m) => negb (bool_decide (m = ∅))
      | Some (OList xs) => negb (bool_decide (xs = []))
      | None => true
      end
  end.

(** [d.get(k)]: only a dict has the method. *)
Definition dict_get (h : heap) (d : val) (k : string) : res val :=
  match d with
  | VRef l =>
      match h !! l with
      | Some (ODict m) => Ok (default VNone (m !! k))
      | Some (OList _) => Raise AttributeError
      | None => Raise InvalidRef
      end
  | _ => Raise AttributeError
  end.

(** [d[k] = v]: on a dict it binds [k]; a list wants an integer index and
    nothing else supports item assignment. *)
Definition setitem (d : val) (k : string) (v : val) : M unit :=
  fun h =>
    match d with
    | VRef l =>
        match h !! l with
        | Some (ODict m) => (<[l := ODict (<[k := v]> m)]> h, Ok tt)
        | Some (OList _) => (h, Raise TypeError)
        | None => (h, Raise InvalidRef)
        end
    | _ => (h, Raise TypeError)
    end.

(** ** Paths: [key_path.strip('/').split('/')] *)

Definition slash : ascii := "/"%char.

Fixpoint lstrip (c : ascii) (s : string) : string :=
  match s with
  | String a s' => if Ascii.eqb a c then lstrip c s' else s
  | EmptyString => EmptyString
  end.

Fixpoint rstrip (c : ascii) (s : string) : string :=
  match s with
  | String a s' =>
      match rstrip c s' with
      | EmptyString => if Ascii.eqb a c then EmptyString else String a EmptyString
      | r => String a r
      end
  | EmptyString => EmptyString
  end.

Definition strip (c : ascii) (s : string) : string := rstrip c (lstrip c s).

(** [s.split(c)]: never empty; the empty string gives one empty segment. *)
Fixpoint split (c : ascii) (s : string) : list string :=
  match s with
  | EmptyString => [EmptyString]
  | String a s' =>
      if Ascii.eqb a c then EmptyString :: split c s'
      else match split c s' with
           | x :: xs => String a x :: xs
           | [] => [String a EmptyString]
           end
  end.

Definition path_keys (key_path : string) : list string :=
  split slash (strip slash key_path).

(** The last character of a string, if any. *)
Fixpoint last_char (s : string) : option ascii :=
  match s with
  | EmptyString => None
  | String a EmptyString => Some a
  | String _ s' => last_char s'
  end.

(** ** match_up *)

(** The loop of [get_member]: descend while the value reached is truthy,
    stop (break) at the first falsy one. *)
Fixpoint descend (h : heap) (value : val) (keys : list string) : res val :=
  match keys with
  | [] => Ok value
  | k :: rest =>
      if truthy h value then v' <-? dict_get h value k; descend h v' rest
      else Ok value
  end.

(** [get_member(data, key_path, get_parent)] returns the pair
    [(value, mem_key)]; [None] for [mem_key] is Python's [None]. *)
Definition get_member (h : heap) (data key_path : val) (get_parent : bool)
  : res (val * option string) :=
  match key_path with
  | VStr s =>
      if truthy h key_path then
        let keys := path_keys s in
        if get_parent then
          v <-? descend h data (removelast keys);
          Ok (v, Some (List.last keys ""))
        else
          v <-? descend h data keys; Ok (v, None)
      else Ok (VNone, None)
  | _ =>
      (* a truthy path that is no string has no [strip] *)
      if truthy h key_path then Raise AttributeError else Ok (VNone, None)
  end.

(** [if key:] on the member key. *)
Definition key_truthy (key : option string) : bool :=
  match key with
  | Some k => negb (String.eqb k "")
  | None => false
  end.

(** [match_up(data_to, data_from, key_to, key_from)].  In the assignment
    [data[key] = get_member(...)[0]] the right-hand side is evaluated first. *)
Definition match_up (data_to data_from key_to key_from : val) : M unit :=
  p <- read (fun h => get_member h data_to key_to true) ;;
  let '(data, key) := p in
  if key_truthy key then
    q <- read (fun h => get_member h data_from key_from false) ;;
    setitem data (default "" key) (fst q)
  else ret tt.

(** ** Iteration, equality and membership *)

Fixpoint chars (s : string) : list val :=
  match s with
  | String a s' => VStr (String a EmptyString) :: chars s'
  | EmptyString => []
  end.

(** [for key in v]: a dict gives its keys, a list its elements, a string
    its characters; nothing else is iterable. *)
Definition py_iter (h : heap) (v : val) : res (list val) :=
  match v with
  | VRef l =>
      match h !! l with
      | Some (ODict m) => Ok (VStr <$> elements (dom m))
      | Some (OList xs) => Ok xs
      | None => Raise InvalidRef
      end
  | VStr s => Ok (chars s)
  | _ => Raise TypeError
  end.

(** Loops over [res bool] bodies: [any_ok] returns at the first [true],
    [all_ok] at the first [false]; an exception ends either. *)
Fixpoint any_ok {A} (f : A -> res bool) (l : list A) : res bool :=
  match l with
  | [] => Ok false
  | x :: r => b <-? f x; if b then Ok true else any_ok f r
  end.

Fixpoint all_ok {A} (f : A -> res bool) (l : list A) : res bool :=
  match l with
  | [] => Ok true
  | x :: r => b <-? f x; if b then all_ok f r else Ok false
  end.

(** [a == b] as the containers use it: identical objects are equal; a bool
    compares with an int by value; dicts and lists compare by content. *)
Fixpoint py_eq (fuel : nat) (h : heap) (a b : val) {struct fuel} : res bool :=
  if bool_decide (a = b) then Ok true
  else
    match a, b with
    | VBool x, VInt z | VInt z, VBool x => Ok (Z.eqb (Z.b2z x) z)
    | VRef l1, VRef l2 =>
        match fuel with
        | O => Raise RecursionError
        | S f =>
            match h !! l1, h !! l2 with
            | Some (ODict m1), Some (ODict m2) =>
                if bool_decide (dom m1 = dom m2) then
                  all_ok (fun k => py_eq f h (default VNone (m1 !! k))
                                               (default VNone (m2 !! k)))
                         (elements (dom m1))
                else Ok false
            | Some (OList x1), Some (OList x2) =>
                if Nat.eqb (length x1) (length x2) then
                  all_ok (fun p => py_eq f h (fst p) (snd p)) (combine x1 x2)
                else Ok false
            | Some _, Some _ => Ok false
            | _, _ => Raise InvalidRef
            end
        end
    | _, _ => Ok false
    end.

(** [k in s] on strings is the substring test. *)
Fixpoint contains (k s : string) : bool :=
  String.prefix k s ||
  match s with
  | String _ s' => contains k s'
  | EmptyString => false
  end.

(** [key in coll].  A dict hashes the key (a dict or a list cannot be
    hashed), a list compares it with each element, a string wants a string
    on the left. *)
Definition py_in (fuel : nat) (h : heap) (key coll : val) : res bool :=
  match coll with
  | VRef l =>
      match h !! l with
      | Some (ODict m) =>
          match key with
          | VStr k => Ok (bool_decide (k ∈ dom m))
          | VRef _ => Raise TypeError
          | _ => Ok false
          end
      | Some (OList xs) => any_ok (py_eq fuel h key) xs
      | None => Raise InvalidRef
      end
  | VStr s =>
      match key with
      | VStr k => Ok (contains k s)
      | _ => Raise TypeError
      end
  | _ => Raise TypeError
  end.

(** [d.get(key)] for a key that need not be a string. *)
Definition get_v (h : heap) (d key : val) : res val :=
  match key with
  | VStr k => dict_get h d k
  | _ =>
      match d with
      | VRef l =>
          match h !! l with
          | Some (ODict _) =>
              match key with VRef _ => Raise TypeError | _ => Ok VNone end
          | Some (OList _) => Raise AttributeError
          | None => Raise InvalidRef
          end
      | _ => Raise AttributeError
      end
  end.

Fixpoint for_each {S A} (l : list A) (body : A -> ST S unit) : ST S unit :=
  match l with
  | [] => ret tt
  | x :: r => body x ;;; for_each r body
  end.

(** ** match_up_extra *)

(** The body of the loop.  The assignment
    [data_to[key] = data_from.get(key)] is reached only with a key of the
    dict [data_from], a string: on a list or a string [data_from.get]
    raises first. *)
Definition copy_unless_excluded (fuel : nat)
    (data_to data_from keys_to_exclude key : val) : M unit :=
  b <- read (fun h => py_in fuel h key keys_to_exclude) ;;
  if b : bool then ret tt
  else
    v <- read (fun h => get_v h data_from key) ;;
    match key with
    | VStr k => setitem data_to k v
    | _ => raise TypeError
    end.

(** The loop runs over the keys [data_from] has at the start: the only
    store is into [data_to], and where that is [data_from] itself it
    rebinds a key the dict already has. *)
Definition match_up_extra (fuel : nat) (data_to data_from keys_to_exclude : val)
  : M unit :=
  keys <- read (fun h => py_iter h data_from) ;;
  for_each keys (copy_unless_excluded fuel data_to data_from keys_to_exclude).

(** ** has_extra *)

(** [keys_to_exclude.keys()], a list of the keys. *)
Definition dict_keys (h : heap) (d : val) : res (list string) :=
  match d with
  | VRef l =>
      match h !! l with
      | Some (ODict m) => Ok (elements (dom m))
      | Some (OList _) => Raise AttributeError
      | None => Raise InvalidRef
      end
  | _ => Raise AttributeError
  end.

(** [key in exclude_keys] on that list: only a string equals a key. *)
Definition key_in_keys (key : val) (ks : list string) : bool :=
  match key with
  | VStr k => bool_decide (k ∈ ks)
  | _ => false
  end.

(** The body answers [true] for [return True] and [false] to go on with
    the next key; the loop falls through to [return False]. *)
Fixpoint has_extra (fuel : nat) (h : heap) (data_from keys_to_exclude : val)
  : res bool :=
  match fuel with
  | O => Raise RecursionError
  | S f =>
      keys <-? py_iter h data_from;
      any_ok (fun key =>
        exclude_keys <-? dict_keys h keys_to_exclude;
        if key_in_keys key exclude_keys then
          value <-? get_v h keys_to_exclude key;
          if truthy h value then
            sub <-? get_v h data_from key;
            has_extra f h sub value
          else Ok false
        else Ok true) keys
  end.

(** ** remove_member *)

(** [data.pop(member)] under the test [member in data.keys()]. *)
Definition pop_member (l : loc) (m : gmap string val) (member : string) : M unit :=
  fun h =>
    if bool_decide (member ∈ dom m)
    then (<[l := ODict (delete member m)]> h, Ok tt)
    else (h, Ok tt).

(** The loops run over the keys (elements) the object has once [member] is
    popped: no call adds a key or changes a list, and a nested call that
    reaches the same dict finds [member] already gone. *)
Fixpoint remove_member (fuel : nat) (data : val) (member : string) : M unit :=
  match fuel with
  | O => raise RecursionError
  | S f =>
      fun h =>
        match data with
        | VRef l =>
            match h !! l with
            | Some (ODict m) =>
                (pop_member l m member ;;;
                 for_each (elements (dom (delete member m))) (fun key =>
                   v <- read (fun h' => dict_get h' data key) ;;
                   remove_member f v member)) h
            | Some (OList xs) =>
                for_each xs (fun one => remove_member f one member) h
            | None => (h, Raise InvalidRef)
            end
        | _ => (h, Ok tt)
        end
  end.

(** ** access_resource *)

(** What [webob.Request(env)] shows of the inbound request. *)
Record request := {
  scheme : string;
  server_name : string;
  server_port : Z;
  path : string;
  headers : list (string * string)   (* [req.headers.items()] *)
}.

(** The backend's answer as [httplib] holds it: the status, the header
    dict of the message (one entry per lower-case name), the body still on
    the wire, and its [read] method.  What [res.read(amt)] hands out is the
    library's business, not this module's: it depends on the status and the
    request method ([httplib] fixes the length at zero for a 204 answer and
    for HEAD), on the transfer coding and on the socket, and it can fail.
    [reader amt left] gives, for the bytes [left] on the wire, the bytes
    still there after the call and its result. *)
Record response := {
  status : Z;
  msg : gmap string string;
  payload : string;
  reader : option Z -> string -> string * res string
}.

(** What is done to the connection and the response, in order. *)
Inductive event :=
  | EConnect (ssl : bool) (host : string) (port : Z)
  | ERequest (method url : string) (body : option string)
             (hdrs : gmap string string)
  | EGetResponse
  | EGetHeaders
  | EGetHeader (name : string)
  | ERead (amt : option Z)
  | EClose.

Record wire := {
  log : list event;          (* most recent last *)
  unread : string            (* body bytes not yet read *)
}.

Definition emit (e : event) : ST wire unit :=
  fun w => ({| log := log w ++ [e]; unread := unread w |}, Ok tt).

Fixpoint take_str (n : nat) (s : string) : string :=
  match n, s with
  | S n', String a s' => String a (take_str n' s')
  | _, _ => EmptyString
  end.

Fixpoint drop_str (n : nat) (s : string) : string :=
  match n, s with
  | S n', String _ s' => drop_str n' s'
  | _, _ => s
  end.

(** [res.read(amt)], [res.read()] for [None]: the call is made, and the
    response's own [read] decides what is handed out. *)
Definition res_read (res : response) (amt : option Z) : ST wire string :=
  fun w =>
    let out := reader res amt (unread w) in
    ({| log := log w ++ [ERead amt]; unread := fst out |}, snd out).

(** [s.lower()] as it is on a byte string, and on text made of ASCII
    characters only; on text with other letters [lower] follows Unicode, which
    this model leaves out. *)
Definition lower_ascii (a : ascii) : ascii :=
  let n := nat_of_ascii a in
  if Nat.leb 65 n && Nat.leb n 90 then ascii_of_nat (n + 32) else a.

Fixpoint lower (s : string) : string :=
  match s with
  | String a s' => String (lower_ascii a) (lower s')
  | EmptyString => EmptyString
  end.

(** [int(s)] on a header value: blanks around an optionally signed run of
    decimal digits; anything else is a [ValueError]. *)
Definition digit_of (a : ascii) : option Z :=
  let n := nat_of_ascii a in
  if Nat.leb 48 n && Nat.leb n 57 then Some (Z.of_nat (n - 48)) else None.

Fixpoint digits (acc : Z) (s : string) : option Z :=
  match s with
  | EmptyString => Some acc
  | String a s' =>
      match digit_of a with
      | Some d => digits (10 * acc + d) s'
      | None => None
      end
  end.

Definition py_int (s : string) : res Z :=
  let body := strip " "%char s in
  let parse t := match t with
                 | EmptyString => None
                 | _ => digits 0 t
                 end in
  let r := match body with
           | String "-"%char t => Z.opp <$> parse t
           | String "+"%char t => parse t
           | t => parse t
           end in
  match r with
  | Some z => Ok z
  | None => Raise ValueError
  end.

(** [if not x] on an optional string argument. *)
Definition str_falsy (x : option string) : bool :=
  match x with
  | Some s => String.eqb s ""
  | None => true
  end.

(** [values = {}; for header in header_list: values[header[0]] = header[1]] *)
Definition collect (header_list : list (string * string)) (init : gmap string string)
  : gmap string string :=
  fold_left (fun values header => <[fst header := snd header]> values)
            header_list init.

(** The request sent out: the connection class by the inbound scheme, the
    headers ([Accept] first, then the inbound ones over it), and the
    defaults of [method] and [path]. *)
Definition out_ssl (req : request) : bool :=
  String.eqb (lower (scheme req)) "https".

Definition out_headers (req : request) : gmap string string :=
  collect (headers req) {[ "Accept" := "application/json" ]}.

Definition out_method (method : option string) : string :=
  if str_falsy method then "GET" else default "" method.

Definition out_url (req : request) (url : option string) : string :=
  if str_falsy url then path req else default "" url.

Section Probe.

(** The backend behind the connection: what it answers to a request sent
    over a plain or an encrypted connection, or the exception of the call
    that fails, [conn.request] or [conn.getresponse]. *)
Variable backend :
  bool -> string -> Z -> string -> string -> option string ->
  gmap string string -> res response.

(** [conn = connection(host, port); conn.request(...);
    res = conn.getresponse()].  When [conn.request] raises,
    [conn.getresponse] is never called. *)
Definition round_trip (ssl : bool) (host : string) (port : Z)
    (method url : string) (body : option string) (hdrs : gmap string string)
  : ST wire response :=
  emit (EConnect ssl host port) ;;;
  emit (ERequest method url body hdrs) ;;;
  fun w =>
    match backend ssl host port method url body hdrs with
    | Raise TransportError => (w, Raise TransportError)
    | Raise e =>
        ({| log := log w ++ [EGetResponse]; unread := unread w |}, Raise e)
    | Ok r =>
        ({| log := log w ++ [EGetResponse]; unread := payload r |}, Ok r)
    end.

Definition getheaders (r : response) : ST wire (list (string * string)) :=
  emit EGetHeaders ;;; ret (map_to_list (msg r)).

Definition getheader (r : response) (name : string) : ST wire (option string) :=
  emit (EGetHeader name) ;;; ret (msg r !! lower name).

(** The probe returns the tuple [(exists, headers, body, status)];
    [None] for the body is Python's [None].  [url] stands for the parameter
    [path]; [query_string] is not used. *)
Definition access_resource (req : request) (method url : option string)
    (get_body : bool) (query_string body : option string)
  : ST wire (bool * gmap string string * option string * Z) :=
  res <- round_trip (out_ssl req) (server_name req) (server_port req)
                    (out_method method) (out_url req url) body
                    (out_headers req) ;;
  if Z.eqb (status res) 404 || Z.eqb (status res) 413 then
    emit EClose ;;;
    ret (false, ∅, None, status res)
  else if Z.eqb (status res) 200 || Z.eqb (status res) 204
          || Z.eqb (status res) 201 then
    header_list <- getheaders res ;;
    let values := collect header_list ∅ in
    body <- (if get_body then
               length <- getheader res "content-length" ;;
               if negb (str_falsy length) then
                 n <- read (fun _ => py_int (default "" length)) ;;
                 res_read res (Some n)
               else res_read res None
             else ret "") ;;
    emit EClose ;;;
    ret (true, values, Some body, status res)
  else
    header_list <- getheaders res ;;
    let values := collect header_list ∅ in
    emit EClose ;;;
    ret (true, values, None, status res).

End Probe.

(** The events of sending the request and taking the response. *)
Definition sent (req : request) (method url body : option string) : list event :=
  [EConnect (out_ssl req) (server_name req) (server_port req);
   ERequest (out_method method) (out_url req url) body (out_headers req);
   EGetResponse].

(** ** An example backend *)

Definition plain_request : request :=
  {| scheme := "http"; server_name := "cloud"; server_port := 8774;
     path := "/machines/7"; headers := [("X-Auth-Token", "t")] |}.

(** An example of [read], as [httplib] does it for a body sent without
    transfer coding over a connection that delivers what is there and then
    ends.  The library fixes the length of the body at zero for a HEAD
    request and for the statuses 1xx, 204 and 304; else the length is the
    [content-length], when that is an integer and not negative. *)
Definition fixed_length (method : string) (code : Z)
    (hdrs : gmap string string) : option Z :=
  if String.eqb method "HEAD" || Z.eqb code 204 || Z.eqb code 304
     || (Z.leb 100 code && Z.ltb code 200)
  then Some 0%Z
  else match hdrs !! "content-length" with
       | Some len =>
           if String.eqb len "" then None
           else match py_int len with
                | Ok n => if Z.ltb n 0 then None else Some n
                | Raise _ => None
                end
       | None => None
       end.

(** A HEAD request has nothing to read.  Else [res.read()] hands out the
    body, of the fixed length when there is one (and fails when the
    connection ends before that); [res.read(amt)] hands out at most [amt]
    bytes and no more than the fixed length, and all that is left for a
    negative [amt]. *)
Definition httplib_read (method : string) (code : Z)
    (hdrs : gmap string string) (amt : option Z) (left : string)
  : string * res string :=
  if String.eqb method "HEAD" then (left, Ok "") else
  match amt, fixed_length method code hdrs with
  | None, None => ("", Ok left)
  | None, Some l =>
      if Nat.leb (Z.to_nat l) (String.length left)
      then (drop_str (Z.to_nat l) left, Ok (take_str (Z.to_nat l) left))
      else ("", Raise ReadError)
  | Some a, fl =>
      let a' := match fl with
                | Some l => if Z.ltb l a then l else a
                | None => a
                end in
      let n := if Z.ltb a' 0 then String.length left else Z.to_nat a' in
      (drop_str n left, Ok (take_str n left))
  end.

(** It answers every request with the same status and eleven bytes of
    body, announcing five. *)
Definition fixed_backend (code : Z) :
    bool -> string -> Z -> string -> string -> option string ->
    gmap string string -> res response :=
  fun _ _ _ method _ _ _ =>
    let hdrs : gmap string string :=
      <["content-length" := "5"]> {[ "content-type" := "application/json" ]} in
    Ok {| status := code; msg := hdrs; payload := "hello world";
          reader := httplib_read method code hdrs |}.

Definition fresh_wire : wire := {| log := []; unread := "" |}.

(** ** The other helpers of the module *)

(** [get_err_response(code)]: the status and the body set on the response.
    [error_table[code]] raises [KeyError] on a code the table does not
    have: that is [None] here. *)
Record err_response := { err_status : Z; err_body : string }.

Definition error_table : gmap string (Z * string) :=
  list_to_map
    [("AccessDenied", (403%Z, "Access denied"));
     ("BadRequest", (400%Z, "Bad request"));
     ("MalformedBody",
        (400%Z, "Request body can not be parsed, malformed request body"));
     ("NotFound", (404%Z, "Resource was not found"));
     ("NotImplemented", (501%Z, "Not implemented"));
     ("TestRequest", (200%Z, "Test request"));
     ("Conflict",
        (409%Z, "The requested name already exists as a different type"))].

Definition get_err_response (code : string) : option err_response :=
  match error_table !! code with
  | Some entry => Some {| err_status := fst entry; err_body := snd entry |}
  | None => None
  end.

(** [concat] of its arguments: [''.join(args)]. *)
Definition concat (args : list string) : string :=
  fold_right String.append "" args.

(** [get_href(data, member)]; [data.get(member)] is evaluated for the test
    and again for the result. *)
Definition get_href (h : heap) (data member : val) : res val :=
  if truthy h data then
    v <-? get_v h data member;
    if truthy h v then
      v' <-? get_v h data member;
      dict_get h v' "href"
    else Ok VNone
  else Ok VNone.

(** [s.rstrip(chars)] for a set of characters. *)
Fixpoint rstrip_any (cs : list ascii) (s : string) : string :=
  match s with
  | String a s' =>
      match rstrip_any cs s' with
      | EmptyString =>
          if existsb (Ascii.eqb a) cs then EmptyString
          else String a EmptyString
      | r => String a r
      end
  | EmptyString => EmptyString
  end.

(** [get_last_part(path)]: [path.rstrip('/ ').split('/')[-1]], the empty
    string for a path that is [None] or empty. *)
Definition get_last_part (path : option string) : string :=
  if str_falsy path then ""
  else List.last (split slash (rstrip_any [slash; " "%char] (default "" path))) "".

(** [s.replace(k, v, 1)]: the leftmost occurrence of [k] replaced; an
    empty [k] occurs at the front, but not in the empty string when a
    count is given (Python 2). *)
Fixpoint replace_first (k v s : string) : string :=
  match s with
  | EmptyString => EmptyString
  | String a s' =>
      if String.prefix k s then v ++ drop_str (String.length k) s
      else String a (replace_first k v s')
  end.

(** [sub_path(path, map)]: one replacement for each item of the dict, in
    the order the dict gives them. *)
Definition sub_path (path : string) (map : gmap string string) : string :=
  fold_left (fun p kv => replace_first (fst kv) (snd kv) p)
            (map_to_list map) path.

(** The state tables and their lookups, [UNKNOWN] on a miss. *)
Definition MACHINE_STATE_MAP : gmap string string :=
  list_to_map
    [("ACTIVE", "STARTED"); ("REBOOT", "STARTING");
     ("HARD_REBOOT", "STARTING"); ("PASSWORD", "UNKNOWN");
     ("REBUILD", "STARTING"); ("MIGRATING", "STARTING");
     ("RESIZE", "STARTING"); ("BUILD", "STARTING");
     ("SHUTOFF", "STOPPED"); ("VERIFY_RESIZE", "STARTING");
     ("REVERT_RESIZE", "STARTING"); ("PAUSED", "PAUSED");
     ("SUSPENDED", "SUSPENDED"); ("RESCUE", "STARTING");
     ("ERROR", "ERROR"); ("DELETED", "DELETING")].

Definition map_machine_state (value : string) : string :=
  default "UNKNOWN" (MACHINE_STATE_MAP !! value).

Definition VOLUME_STATE_MAP : gmap string string :=
  list_to_map
    [("creating", "CREATING"); ("available", "AVAILABLE");
     ("deleting", "DELETING"); ("attaching", "ATTACHING");
     ("detaching", "DETACHING"); ("in-use", "INUSE");
     ("error", "ERROR"); ("error_deleting", "ERROR")].

Definition map_volume_state (value : string) : string :=
  default "UNKNOWN" (VOLUME_STATE_MAP !! value).

Definition IMAGE_STATE_MAP : gmap string string :=
  list_to_map
    [("queued", "CREATING"); ("saving", "CREATING");
     ("active", "AVAILABLE"); ("killed", "DELETED");
     ("deleted", "DELETED"); ("pending_delete", "DELETING")].

Definition map_image_state (value : string) : string :=
  default "UNKNOWN" (IMAGE_STATE_MAP !! lower value).

(** A path of [n] slashes and nothing else. *)
Fixpoint slashes (n : nat) : string :=
  match n with
  | O => EmptyString
  | S n' => String slash (slashes n')
  end.

(** A value that is truthy and no mapping: a scalar, or a list that is not
    empty.  [d.get] on it is an [AttributeError]. *)
Definition truthy_non_mapping (h : heap) (v : val) : bool :=
  match v with
  | VRef l =>
      match h !! l with
      | Some (OList xs) => negb (bool_decide (xs = []))
      | _ => false
      end
  | _ => truthy h v
  end.

(** A value that cannot take [d[k] = v]: a scalar or a list. *)
Definition not_assignable (h : heap) (v : val) : bool :=
  match v with
  | VRef l =>
      match h !! l with
      | Some (OList _) => true
      | _ => false
      end
  | _ => true
  end.

(** A source with nothing to iterate: an empty dict, list or string. *)
Definition empty_iterable (h : heap) (v : val) : bool :=
  match v with
  | VRef l =>
      match h !! l with
      | Some (ODict m) => bool_decide (m = ∅)
      | Some (OList xs) => bool_decide (xs = [])
      | None => false
      end
  | VStr s => String.eqb s ""
  | _ => false
  end.

(** [{"self": <the dict itself>, "n": 1}] at 0. *)
Definition loop_store : heap :=
  <[0 := ODict (<["n" := VInt 1]> {[ "self" := VRef 0 ]})]> ∅.






(** [value] is made of ASCII characters only. *)
Fixpoint ascii_only (s : string) : bool :=
  match s with
  | String a s' => Nat.ltb (nat_of_ascii a) 128 && ascii_only s'
  | EmptyString => true
  end.

(** The character [c] occurs in [s]. *)
Fixpoint has_char (c : ascii) (s : string) : bool :=
  match s with
  | String a s' => Ascii.eqb a c || has_char c s'
  | EmptyString => false
  end.

(** [s.upper()] on text made of ASCII characters, to spell a state name
    in capitals. *)
Definition upper_ascii (a : ascii) : ascii :=
  let n := nat_of_ascii a in
  if Nat.leb 97 n && Nat.leb n 122 then ascii_of_nat (n - 32) else a.

Fixpoint upper (s : string) : string :=
  match s with
  | String a s' => String (upper_ascii a) (upper s')
  | EmptyString => EmptyString
  end.

(** [{"link": {"href": "/x/1"}, "name": "n", "gone": None}] at 0, its
    [link] at 1. *)
Definition ref_store : heap :=
  <[0 := ODict (<["link" := VRef 1]> (<["name" := VStr "n"]>
                  {[ "gone" := VNone ]}))]>
  (<[1 := ODict {[ "href" := VStr "/x/1" ]}]> ∅).

(** * Specification-side notions *)

(** Strict resolution of a list of segments, as the specification reads a
    path: every segment must be a key of the mapping node reached so far. *)
Fixpoint resolve (h : heap) (v : val) (segs : list string) : option val :=
  match segs with
  | [] => Some v
  | k :: rest =>
      match v with
      | VRef l =>
          match h !! l with
          | Some (ODict m) =>
              match m !! k with
              | Some v' => resolve h v' rest
              | None => None
              end
          | _ => None
          end
      | _ => None
      end
  end.

(** The value the specification takes [source_path] to address: the
    strictly resolved one, [None] (null) where the path does not resolve. *)
Definition value_at (h : heap) (source : val) (source_path : string) : val :=
  default VNone (resolve h source (path_keys source_path)).

(** A collection of excluded names: a dict, a list or a string. *)
Definition is_collection (h : heap) (c : val) : bool :=
  match c with
  | VRef l => bool_decide (is_Some (h !! l))
  | VStr _ => true
  | _ => false
  end.

(** The name [k] is in the collection: a key of the dict, an element of the
    list, a substring of the string. *)
Definition excluded (h : heap) (k : string) (c : val) : bool :=
  match c with
  | VRef l =>
      match h !! l with
      | Some (ODict m) => bool_decide (k ∈ dom m)
      | Some (OList xs) => bool_decide (VStr k ∈ xs)
      | None => false
      end
  | VStr s => contains k s
  | _ => false
  end.

(** ** Documents in the store *)

(** [edge h l v]: the object at [l] holds [v], as the value of a key or as
    an element. *)
Inductive edge (h : heap) : loc -> val -> Prop :=
  | edge_dict l m k v :
      h !! l = Some (ODict m) -> m !! k = Some v -> edge h l v
  | edge_list l xs v :
      h !! l = Some (OList xs) -> v ∈ xs -> edge h l v.

(** [reach h v l]: the object at [l] is [v] or lies below it, at any depth,
    through mapping values and sequence elements. *)
Inductive reach (h : heap) : val -> loc -> Prop :=
  | reach_here l : reach h (VRef l) l
  | reach_step l v l' : edge h l v -> reach h v l' -> reach h (VRef l) l'.

(** [doc n h v]: [v] is a document nested at most [n] deep, every
    reference in it denoting an object.  Such a document has no cycle; it
    may share sub-documents. *)
Fixpoint doc (n : nat) (h : heap) (v : val) : bool :=
  match v with
  | VRef l =>
      match n with
      | O => false
      | S n' =>
          match h !! l with
          | Some (ODict m) => forallb (fun kv => doc n' h (snd kv)) (map_to_list m)
          | Some (OList xs) => forallb (doc n' h) xs
          | None => false
          end
      end
  | _ => true
  end.

(** No mapping of the document [v] has the key [member]. *)
Definition clean (member : string) (h : heap) (v : val) : Prop :=
  forall l m, reach h v l -> h !! l = Some (ODict m) -> m !! member = None.

(** An object with [member] taken out, if it is a mapping. *)
Definition strip1 (member : string) (o : obj) : obj :=
  match o with
  | ODict m => ODict (delete member m)
  | OList xs => OList xs
  end.

(** [h'] is [h] with [member] taken out of some of its mappings and
    nothing else changed. *)
Definition stripped_of (member : string) (h h' : heap) : Prop :=
  forall l, h' !! l = h !! l \/ h' !! l = strip1 member <$> (h !! l).

(** ** Accounting for attributes *)

(** The attributes of a value: the entries of a mapping; nothing else has
    attributes. *)
Definition attrs (h : heap) (v : val) : gmap string val :=
  match v with
  | VRef l =>
      match h !! l with
      | Some (ODict m) => m
      | _ => ∅
      end
  | _ => ∅
  end.

(** An exclusion-set entry that is a nested set, as opposed to null. *)
Definition nested_set (h : heap) (x : val) : bool :=
  match x with
  | VRef l =>
      match h !! l with
      | Some (ODict _) => true
      | _ => false
      end
  | _ => false
  end.

(** Every attribute name of [source] is present in [excl], and so on in
    the attributes into which [recurse] tells to descend, to depth [n]. *)
Fixpoint accounted (recurse : heap -> val -> bool) (n : nat) (h : heap)
    (source excl : val) : bool :=
  forallb (fun k =>
    match attrs h excl !! k with
    | Some x =>
        if recurse h x then
          match n with
          | S n' => accounted recurse n' h (default VNone (attrs h source !! k)) x
          | O => false
          end
        else true
    | None => false
    end) (elements (dom (attrs h source))).

(** [source] and [excl] are mappings and so are, to depth [n], the
    attribute and the entry wherever the entry of an attribute is truthy. *)
Fixpoint shaped (n : nat) (h : heap) (source excl : val) : bool :=
  match source, excl with
  | VRef ls, VRef le =>
      match h !! ls, h !! le with
      | Some (ODict ms), Some (ODict me) =>
          forallb (fun k =>
            match me !! k with
            | Some x =>
                if truthy h x then
                  match n with
                  | S n' => shaped n' h (default VNone (ms !! k)) x
                  | O => false
                  end
                else true
            | None => true
            end) (elements (dom ms))
      | _, _ => false
      end
  | _, _ => false
  end.

(** ** Example stores *)

(** [target = {}] at 0 and [source = {"meta": {"href": "/x/1"}}] at 1. *)
Definition link_store : heap :=
  <[0 := ODict ∅]>
  (<[1 := ODict {[ "meta" := VRef 2 ]}]>
  (<[2 := ODict {[ "href" := VStr "/x/1" ]}]> ∅)).

(** [target = {"a": {}}] at 0 and [source = {"x": 1}] at 2. *)
Definition hollow_store : heap :=
  <[0 := ODict {[ "a" := VRef 1 ]}]>
  (<[1 := ODict ∅]>
  (<[2 := ODict {[ "x" := VInt 1 ]}]> ∅)).

(** [target = {}] at 0 and [source = {"a": {}}] at 1. *)
Definition stub_store : heap :=
  <[0 := ODict ∅]>
  (<[1 := ODict {[ "a" := VRef 2 ]}]>
  (<[2 := ODict ∅]> ∅)).

(** [target = {"id": 7, "name": "old"}] at 0,
    [source = {"id": 9, "name": "new", "tags": ["x"]}] at 1 (its list at 3)
    and [excluded_keys = ["id"]] at 2. *)
Definition merge_store : heap :=
  <[0 := ODict (<["id" := VInt 7]> {[ "name" := VStr "old" ]})]>
  (<[1 := ODict (<["id" := VInt 9]> (<["name" := VStr "new"]>
                  {[ "tags" := VRef 3 ]}))]>
  (<[2 := OList [VStr "id"]]>
  (<[3 := OList [VStr "x"]]> ∅))).

(** [{"href": "/a", "items": [{"href": "/b", "id": 1}], "meta": {"href": "/c"}}]
    at 0, the list at 1, its element at 2 and [meta] at 3. *)
Definition href_store : heap :=
  <[0 := ODict (<["href" := VStr "/a"]> (<["items" := VRef 1]>
                  {[ "meta" := VRef 3 ]}))]>
  (<[1 := OList [VRef 2]]>
  (<[2 := ODict (<["href" := VStr "/b"]> {[ "id" := VInt 1 ]})]>
  (<[3 := ODict {[ "href" := VStr "/c" ]}]> ∅))).

(** [{"a": 1, "b": {"c": 2}}] at 0 (its [b] at 1), [{"a": 1, "x": 2}] at 2
    and the exclusion set [{"a": None, "b": {"c": None}}] at 3 (its [b]
    at 4). *)
Definition extra_store : heap :=
  <[0 := ODict (<["a" := VInt 1]> {[ "b" := VRef 1 ]})]>
  (<[1 := ODict {[ "c" := VInt 2 ]}]>
  (<[2 := ODict (<["a" := VInt 1]> {[ "x" := VInt 2 ]})]>
  (<[3 := ODict (<["a" := VNone]> {[ "b" := VRef 4 ]})]>
  (<[4 := ODict {[ "c" := VNone ]}]> ∅)))).

(** [{"a": {"x": 1}}] at 0 (its [a] at 1), [{"a": {"y": 5, "z": 6}}] at 4
    (its [a] at 5) and the exclusion set [{"a": {}}] at 2 (its [a] at 3). *)
Definition nest_store : heap :=
  <[0 := ODict {[ "a" := VRef 1 ]}]>
  (<[1 := ODict {[ "x" := VInt 1 ]}]>
  (<[2 := ODict {[ "a" := VRef 3 ]}]>
  (<[3 := ODict ∅]>
  (<[4 := ODict {[ "a" := VRef 5 ]}]>
  (<[5 := ODict (<["y" := VInt 5]> {[ "z" := VInt 6 ]})]> ∅))))).

(** ** The statements under test, as the specification words them *)

(** An intermediate segment missing from the mapping reached so far makes
    [match_up] a silent no-op. *)
Definition absent_segment_is_silent_noop : Prop :=
  forall (h : heap) (data_to data_from key_from : val) (s : string)
         (pre : list string) (seg : string) (post : list string)
         (l : loc) (m : gmap string val),
    path_keys s = pre ++ seg :: post -> post <> [] ->
    resolve h data_to pre = Some (VRef l) ->
    h !! l = Some (ODict m) -> m !! seg = None ->
    match_up data_to data_from (VStr s) key_from h = (h, Ok tt).

(** Where the parent chain resolves, the final key is bound to the value
    [source_path] addresses, or to null where it does not resolve. *)
Definition writes_addressed_value_or_null : Prop :=
  forall (h : heap) (data_to data_from : val) (s t : string)
         (lp : loc) (mp : gmap string val),
    resolve h data_to (removelast (path_keys s)) = Some (VRef lp) ->
    h !! lp = Some (ODict mp) ->
    List.last (path_keys s) "" <> "" ->
    exists mp',
      fst (match_up data_to data_from (VStr s) (VStr t) h) !! lp
        = Some (ODict mp') /\
      mp' !! List.last (path_keys s) "" = Some (value_at h data_from t).


(** * Facts about the primitives *)

Lemma truthy_dict_lookup (h : heap) l (m : gmap string val) k v :
  h !! l = Some (ODict m) -> m !! k = Some v -> truthy h (VRef l) = true.
Proof.
  intros Hl Hk. simpl. rewrite Hl.
  rewrite bool_decide_eq_false_2; [reflexivity|].
  intros ->. rewrite lookup_empty in Hk. discriminate.
Qed.

Lemma truthy_dict_nonempty (h : heap) l (m : gmap string val) :
  h !! l = Some (ODict m) -> m <> ∅ -> truthy h (VRef l) = true.
Proof.
  intros Hl Hne. simpl. rewrite Hl.
  rewrite bool_decide_eq_false_2; [reflexivity|assumption].
Qed.

Lemma truthy_dict_empty (h : heap) l :
  h !! l = Some (ODict ∅) -> truthy h (VRef l) = false.
Proof. intros Hl. simpl. rewrite Hl. reflexivity. Qed.

Lemma descend_falsy h v ks : truthy h v = false -> descend h v ks = Ok v.
Proof. intros Hv. destruct ks; simpl; [reflexivity|]. rewrite Hv. reflexivity. Qed.

(** Descending along [pre ++ post] is descending along [pre] and then along
    [post]: after a break the value is falsy and stays. *)
Lemma descend_app h v pre post :
  descend h v (pre ++ post) = (x <-? descend h v pre; descend h x post).
Proof.
  revert v. induction pre as [|k pre IH]; intros v; simpl; [reflexivity|].
  destruct (truthy h v) eqn:Hv.
  - destruct (dict_get h v k) as [v'|e]; simpl; [apply IH|reflexivity].
  - simpl. symmetry. apply descend_falsy. assumption.
Qed.

(** Where the path resolves strictly, the loop of [get_member] follows it
    to the same value. *)
Lemma descend_resolve h v segs x :
  resolve h v segs = Some x -> descend h v segs = Ok x.
Proof.
  revert v. induction segs as [|k rest IH]; intros v Hr.
  - simpl in *. congruence.
  - cbn [resolve] in Hr. cbn [descend].
    destruct v as [| | | |l]; try discriminate.
    destruct (h !! l) as [[m|xs]|] eqn:Hl; try discriminate.
    destruct (m !! k) as [v'|] eqn:Hk; try discriminate.
    rewrite (truthy_dict_lookup h l m k v' Hl Hk).
    unfold dict_get. rewrite Hl, Hk. simpl. apply IH. assumption.
Qed.

(** A segment missing from a non-empty mapping gives [None], whatever
    follows. *)
Lemma descend_absent h l (m : gmap string val) seg post :
  h !! l = Some (ODict m) -> m <> ∅ -> m !! seg = None ->
  descend h (VRef l) (seg :: post) = Ok VNone.
Proof.
  intros Hl Hne Hseg.
  change (descend h (VRef l) (seg :: post))
    with (if truthy h (VRef l)
          then v' <-? dict_get h (VRef l) seg; descend h v' post
          else Ok (VRef l)).
  rewrite (truthy_dict_nonempty h l m Hl Hne).
  unfold dict_get. rewrite Hl, Hseg. simpl. apply descend_falsy. reflexivity.
Qed.

Lemma removelast_snoc {A} (l : list A) (x : A) : removelast (l ++ [x]) = l.
Proof. apply removelast_last. Qed.

Lemma last_snoc {A} (l : list A) (x d : A) : List.last (l ++ [x]) d = x.
Proof. apply last_last. Qed.

Lemma removelast_middle {A} (pre : list A) (x : A) (post : list A) :
  post <> [] ->
  removelast (pre ++ x :: post) = pre ++ x :: removelast post.
Proof.
  intros Hp. rewrite removelast_app by discriminate.
  simpl. destruct post; [contradiction|reflexivity].
Qed.

(** * match_up *)

Lemma match_up_unfold data_to data_from key_to key_from h :
  match_up data_to data_from key_to key_from h =
  match get_member h data_to key_to true with
  | Ok (data, key) =>
      if key_truthy key then
        match get_member h data_from key_from false with
        | Ok q => setitem data (default "" key) (fst q) h
        | Raise e => (h, Raise e)
        end
      else (h, Ok tt)
  | Raise e => (h, Raise e)
  end.
Proof.
  unfold match_up, bind, read.
  destruct (get_member h data_to key_to true) as [[data key]|e]; [|reflexivity].
  destruct (key_truthy key); [|reflexivity].
  destruct (get_member h data_from key_from false); reflexivity.
Qed.

Lemma path_keys_last_nonempty s : List.last (path_keys s) "" <> "" -> s <> "".
Proof. intros Hl ->. apply Hl. reflexivity. Qed.

Lemma get_member_parent h data s :
  s <> "" ->
  get_member h data (VStr s) true =
  (v <-? descend h data (removelast (path_keys s));
   Ok (v, Some (List.last (path_keys s) ""))).
Proof.
  intros Hs. unfold get_member, truthy.
  destruct (String.eqb_spec s ""); [contradiction|reflexivity].
Qed.

Lemma get_member_value h data t :
  t <> "" ->
  get_member h data (VStr t) false =
  (v <-? descend h data (path_keys t); Ok (v, None)).
Proof.
  intros Ht. unfold get_member, truthy.
  destruct (String.eqb_spec t ""); [contradiction|reflexivity].
Qed.

Lemma get_member_value_inv h data t v o :
  t <> "" ->
  get_member h data (VStr t) false = Ok (v, o) ->
  descend h data (path_keys t) = Ok v.
Proof.
  intros Ht. rewrite get_member_value by assumption.
  destruct (descend h data (path_keys t)); simpl; congruence.
Qed.

Lemma key_truthy_nonempty k : k <> "" -> key_truthy (Some k) = true.
Proof.
  intros Hk. unfold key_truthy. destruct (String.eqb_spec k ""); [contradiction|reflexivity].
Qed.

(** The write of [match_up], once the parent node and the source value are
    known. *)
Lemma match_up_write h data_to data_from s key_from lp mp v o :
  descend h data_to (removelast (path_keys s)) = Ok (VRef lp) ->
  h !! lp = Some (ODict mp) ->
  List.last (path_keys s) "" <> "" ->
  get_member h data_from key_from false = Ok (v, o) ->
  match_up data_to data_from (VStr s) key_from h =
  (<[lp := ODict (<[List.last (path_keys s) "" := v]> mp)]> h, Ok tt).
Proof.
  intros Hd Hlp Hk Hsrc.
  rewrite match_up_unfold.
  rewrite get_member_parent by (apply path_keys_last_nonempty; assumption).
  rewrite Hd. cbv beta iota delta [res_bind].
  rewrite key_truthy_nonempty by assumption.
  rewrite Hsrc. simpl. rewrite Hlp. reflexivity.
Qed.

(** With no parent node to write to, [match_up] leaves the store alone. *)
Lemma match_up_none_parent h data_to data_from s key_from :
  s <> "" ->
  descend h data_to (removelast (path_keys s)) = Ok VNone ->
  fst (match_up data_to data_from (VStr s) key_from h) = h.
Proof.
  intros Hs Hd. rewrite match_up_unfold, get_member_parent by assumption.
  rewrite Hd. cbv beta iota delta [res_bind].
  destruct (key_truthy _); [|reflexivity].
  destruct (get_member h data_from key_from false); reflexivity.
Qed.

(** ... and raises when the final key is not empty: the assignment
    [None[key] = ...] is a [TypeError], unless resolving the source raised
    before. *)
Lemma match_up_none_parent_raises h data_to data_from s key_from :
  descend h data_to (removelast (path_keys s)) = Ok VNone ->
  List.last (path_keys s) "" <> "" ->
  exists e, snd (match_up data_to data_from (VStr s) key_from h) = Raise e.
Proof.
  intros Hd Hk. rewrite match_up_unfold.
  rewrite get_member_parent by (apply path_keys_last_nonempty; assumption).
  rewrite Hd. cbv beta iota delta [res_bind]. rewrite key_truthy_nonempty by assumption.
  destruct (get_member h data_from key_from false) as [q|e]; simpl; eauto.
Qed.

(** ** The last segment of a path *)

Lemma split_nonempty c s : split c s <> [].
Proof.
  destruct s as [|a s]; simpl; [discriminate|].
  destruct (Ascii.eqb a c); [discriminate|].
  destruct (split c s); discriminate.
Qed.

Lemma split_last_empty c s :
  List.last (split c s) "" = "" -> s = "" \/ last_char s = Some c.
Proof.
  induction s as [|a s IH]; [auto|].
  intros Hl. right. simpl in Hl.
  destruct (Ascii.eqb_spec a c) as [->|Hne].
  - pose proof (split_nonempty c s) as Hn.
    destruct (split c s) as [|x xs] eqn:Hs; [contradiction|].
    change (List.last ("" :: x :: xs) "") with (List.last (x :: xs) "") in Hl.
    destruct (IH Hl) as [->|Hc]; [reflexivity|].
    simpl. destruct s; [discriminate|assumption].
  - pose proof (split_nonempty c s) as Hn.
    destruct (split c s) as [|x xs] eqn:Hs; [contradiction|].
    destruct xs as [|y ys]; [discriminate|].
    change (List.last (String a x :: y :: ys) "")
      with (List.last (x :: y :: ys) "") in Hl.
    destruct (IH Hl) as [->|Hc]; [discriminate|].
    simpl. destruct s; [discriminate|assumption].
Qed.

Lemma rstrip_last_char c s : last_char (rstrip c s) <> Some c.
Proof.
  induction s as [|a s IH]; simpl; [discriminate|].
  destruct (rstrip c s) as [|b r] eqn:Hr.
  - destruct (Ascii.eqb_spec a c); simpl; congruence.
  - simpl in *. assumption.
Qed.

(** A path of two segments or more ends in a segment that is not empty. *)
Lemma path_keys_last s :
  (2 <= length (path_keys s))%nat -> List.last (path_keys s) "" <> "".
Proof.
  unfold path_keys, strip. intros Hlen Hl.
  destruct (split_last_empty _ _ Hl) as [He|Hc].
  - rewrite He in Hlen. simpl in Hlen. lia.
  - exact (rstrip_last_char _ _ Hc).
Qed.

(** Where an intermediate segment is missing from a non-empty mapping the
    parent is [None], and the call ends in an exception. *)
Lemma match_up_absent_segment_raises
    (h : heap) (data_to data_from key_from : val) (s : string)
    (pre : list string) (seg : string) (post : list string)
    (l : loc) (m : gmap string val) :
  path_keys s = pre ++ seg :: post -> post <> [] ->
  resolve h data_to pre = Some (VRef l) ->
  h !! l = Some (ODict m) -> m <> ∅ -> m !! seg = None ->
  exists e, snd (match_up data_to data_from (VStr s) key_from h) = Raise e.
Proof.
  intros Hkeys Hpost Hpre Hl Hne Hseg.
  apply match_up_none_parent_raises.
  - rewrite Hkeys, removelast_middle by assumption.
    rewrite descend_app, (descend_resolve _ _ _ _ Hpre).
    cbv beta iota delta [res_bind].
    eapply descend_absent; eassumption.
  - apply path_keys_last. rewrite Hkeys, length_app. simpl.
    destruct post; [contradiction|simpl; lia].
Qed.

(** ** The claims on match_up *)

(** C1, as stated, fails: with [target = {}] and the path [/a/b] the
    segment [a] is missing from the mapping reached, and yet [match_up]
    writes [b] into the target. *)
Lemma absent_segment_written_anyway : ~ absent_segment_is_silent_noop.
Proof.
  intros Hclaim.
  specialize (Hclaim link_store (VRef 0) (VRef 1) (VStr "/meta/href") "/a/b"
                     [] "a" ["b"] 0 ∅).
  assert (Hrun : match_up (VRef 0) (VRef 1) (VStr "/a/b") (VStr "/meta/href")
                          link_store = (link_store, Ok tt)).
  { apply Hclaim; [reflexivity|discriminate|reflexivity|reflexivity|reflexivity]. }
  apply (f_equal (fun r => fst r !! 0)) in Hrun.
  vm_compute in Hrun. discriminate.
Qed.

(** C1, amended: when an intermediate segment of [target_path] is missing
    from the non-empty mapping reached so far, [match_up] writes nothing:
    the store is as it was. *)
Theorem match_up_absent_segment_no_write
    (h : heap) (data_to data_from key_from : val) (s : string)
    (pre : list string) (seg : string) (post : list string)
    (l : loc) (m : gmap string val) :
  path_keys s = pre ++ seg :: post -> post <> [] ->
  resolve h data_to pre = Some (VRef l) ->
  h !! l = Some (ODict m) -> m <> ∅ -> m !! seg = None ->
  fst (match_up data_to data_from (VStr s) key_from h) = h.
Proof.
  intros Hkeys Hpost Hpre Hl Hne Hseg.
  apply match_up_none_parent.
  - intros ->. destruct pre as [|? [|? ?]]; destruct post; try discriminate;
      contradiction.
  - rewrite Hkeys, removelast_middle by assumption.
    rewrite descend_app, (descend_resolve _ _ _ _ Hpre). cbv beta iota delta [res_bind].
    eapply descend_absent; eassumption.
Qed.

Lemma match_up_absent_segment_no_write_witness :
  fst (match_up (VRef 0) (VRef 2) (VStr "/a/b/c") (VStr "/x")
                (<[1 := ODict {[ "z" := VInt 0 ]}]> hollow_store))
  = <[1 := ODict {[ "z" := VInt 0 ]}]> hollow_store.
Proof.
  apply (match_up_absent_segment_no_write
           (<[1 := ODict {[ "z" := VInt 0 ]}]> hollow_store)
           (VRef 0) (VRef 2) (VStr "/x") "/a/b/c"
           ["a"] "b" ["c"] 1 {[ "z" := VInt 0 ]}).
  - reflexivity.
  - discriminate.
  - reflexivity.
  - reflexivity.
  - intros H. apply (f_equal (fun m : gmap string val => m !! "z")) in H.
    vm_compute in H. discriminate.
  - reflexivity.
Defined.

(** C2, as stated, fails: the call changes the target. *)
Lemma link_target_changed :
  fst (match_up (VRef 0) (VRef 1) (VStr "/link") (VStr "/meta/href") link_store)
    !! 0 <> link_store !! 0.
Proof. vm_compute. discriminate. Qed.

(** C2, amended: with [target = {}], [source = {"meta": {"href": "/x/1"}}],
    [target_path = "/link"] and [source_path = "/meta/href"], [match_up]
    returns normally and the target becomes [{"link": "/x/1"}]. *)
Theorem match_up_link (h : heap) (lt ls lm : loc) :
  h !! lt = Some (ODict ∅) ->
  h !! ls = Some (ODict {[ "meta" := VRef lm ]}) ->
  h !! lm = Some (ODict {[ "href" := VStr "/x/1" ]}) ->
  match_up (VRef lt) (VRef ls) (VStr "/link") (VStr "/meta/href") h
  = (<[lt := ODict {[ "link" := VStr "/x/1" ]}]> h, Ok tt).
Proof.
  intros Ht Hs Hm.
  rewrite (match_up_write h (VRef lt) (VRef ls) "/link" (VStr "/meta/href")
             lt ∅ (VStr "/x/1") None).
  - reflexivity.
  - reflexivity.
  - assumption.
  - discriminate.
  - rewrite get_member_value by discriminate.
    rewrite (descend_resolve h (VRef ls) (path_keys "/meta/href") (VStr "/x/1")).
    + reflexivity.
    + change (path_keys "/meta/href") with ["meta"; "href"].
      cbn [resolve]. rewrite Hs. rewrite lookup_singleton_eq.
      rewrite Hm. rewrite lookup_singleton_eq. reflexivity.
Qed.

Lemma match_up_link_witness :
  match_up (VRef 0) (VRef 1) (VStr "/link") (VStr "/meta/href") link_store
  = (<[0 := ODict {[ "link" := VStr "/x/1" ]}]> link_store, Ok tt).
Proof.
  apply (match_up_link link_store 0 1 2); reflexivity.
Defined.

(** C9: where the descent along [target_path] reaches an empty mapping
    before the intermediate segments are used up, [match_up] stops there
    and writes the final key into that mapping, skipping the remaining
    segments; with [target = {"a": {}}] and the path [/a/b/c] the target
    ends as [{"a": {"c": v}}]. *)
Theorem match_up_empty_mapping_takes_final_key
    (h : heap) (data_to data_from key_from : val) (s : string)
    (pre rest : list string) (k : string) (l : loc) (v : val)
    (o : option string) :
  path_keys s = pre ++ rest ++ [k] -> rest <> [] -> k <> "" ->
  resolve h data_to pre = Some (VRef l) ->
  h !! l = Some (ODict ∅) ->
  get_member h data_from key_from false = Ok (v, o) ->
  match_up data_to data_from (VStr s) key_from h
  = (<[l := ODict {[ k := v ]}]> h, Ok tt).
Proof.
  intros Hkeys Hrest Hk Hpre Hl Hsrc.
  assert (Hlast : List.last (path_keys s) "" = k).
  { rewrite Hkeys, app_assoc. apply last_snoc. }
  rewrite (match_up_write h data_to data_from s key_from l ∅ v o).
  - rewrite Hlast, insert_empty. reflexivity.
  - rewrite Hkeys, app_assoc, removelast_snoc.
    rewrite descend_app, (descend_resolve _ _ _ _ Hpre). cbv beta iota delta [res_bind].
    apply descend_falsy, truthy_dict_empty. assumption.
  - assumption.
  - rewrite Hlast. assumption.
  - assumption.
Qed.

Lemma match_up_empty_mapping_takes_final_key_witness :
  match_up (VRef 0) (VRef 2) (VStr "/a/b/c") (VStr "/x") hollow_store
  = (<[1 := ODict {[ "c" := VInt 1 ]}]> hollow_store, Ok tt).
Proof.
  apply (match_up_empty_mapping_takes_final_key
           hollow_store (VRef 0) (VRef 2) (VStr "/x") "/a/b/c"
           ["a"] ["b"] "c" 1 (VInt 1) None).
  - reflexivity.
  - discriminate.
  - discriminate.
  - reflexivity.
  - reflexivity.
  - reflexivity.
Defined.

(** C3, as stated, fails: with [source = {"a": {}}] the path [/a/b] does
    not resolve, and the key is bound to the empty mapping at which the
    descent stopped, not to null. *)
Lemma unresolved_source_not_null : ~ writes_addressed_value_or_null.
Proof.
  intros Hclaim.
  destruct (Hclaim stub_store (VRef 0) (VRef 1) "/k" "/a/b" 0 ∅)
    as (mp' & Hcell & Hkey).
  - reflexivity.
  - reflexivity.
  - discriminate.
  - vm_compute in Hcell. injection Hcell as <-.
    vm_compute in Hkey. discriminate.
Qed.

(** C3, amended: when the parent chain of [target_path] resolves to a
    mapping node, the final segment is not empty and resolving
    [source_path] in the source returns a value [v] (it does not raise),
    [match_up] returns normally and binds the final key to [v] in the
    parent node, every other node being left as it was (so the source is
    mutated only if the parent node is one of its own nodes).  [v] is the
    value addressed when [source_path] resolves; null when [source_path] is
    null or empty, or when a segment is missing from a non-empty mapping
    reached; and the falsy value at which the descent stops when one is
    reached before the path ends. *)
Theorem match_up_binds_final_key
    (h : heap) (data_to data_from key_from : val) (s : string)
    (lp : loc) (mp : gmap string val) (v : val) (o : option string) :
  resolve h data_to (removelast (path_keys s)) = Some (VRef lp) ->
  h !! lp = Some (ODict mp) ->
  List.last (path_keys s) "" <> "" ->
  get_member h data_from key_from false = Ok (v, o) ->
  let h' := <[lp := ODict (<[List.last (path_keys s) "" := v]> mp)]> h in
  match_up data_to data_from (VStr s) key_from h = (h', Ok tt) /\
  (forall l, l <> lp -> h' !! l = h !! l) /\
  (forall t x, key_from = VStr t -> t <> "" ->
     resolve h data_from (path_keys t) = Some x -> v = x) /\
  (key_from = VNone \/ key_from = VStr "" -> v = VNone) /\
  (forall t pre seg post l m,
     key_from = VStr t -> path_keys t = pre ++ seg :: post ->
     resolve h data_from pre = Some (VRef l) ->
     h !! l = Some (ODict m) -> m <> ∅ -> m !! seg = None -> v = VNone) /\
  (forall t pre post x,
     key_from = VStr t -> t <> "" -> path_keys t = pre ++ post ->
     resolve h data_from pre = Some x -> truthy h x = false -> v = x).
Proof.
  intros Hpar Hlp Hk Hsrc h'. repeat split.
  - apply (match_up_write h data_to data_from s key_from lp mp v o);
      auto using descend_resolve.
  - intros l Hl. unfold h'. apply lookup_insert_ne. congruence.
  - intros t x -> Ht Hres.
    pose proof (get_member_value_inv _ _ _ _ _ Ht Hsrc) as Hd.
    rewrite (descend_resolve _ _ _ _ Hres) in Hd. congruence.
  - intros [-> | ->]; simpl in Hsrc; congruence.
  - intros t pre seg post l m -> Hkeys Hpre Hl Hne Hseg.
    destruct (String.eqb_spec t "") as [->|Ht]; [simpl in Hsrc; congruence|].
    pose proof (get_member_value_inv _ _ _ _ _ Ht Hsrc) as Hd.
    rewrite Hkeys, descend_app, (descend_resolve _ _ _ _ Hpre) in Hd.
    cbv beta iota delta [res_bind] in Hd.
    rewrite (descend_absent h l m seg post Hl Hne Hseg) in Hd. congruence.
  - intros t pre post x -> Ht Hkeys Hpre Hx.
    pose proof (get_member_value_inv _ _ _ _ _ Ht Hsrc) as Hd.
    rewrite Hkeys, descend_app, (descend_resolve _ _ _ _ Hpre) in Hd.
    cbv beta iota delta [res_bind] in Hd. rewrite (descend_falsy _ _ _ Hx) in Hd. congruence.
Qed.

Lemma match_up_binds_final_key_witness :
  match_up (VRef 0) (VRef 2) (VStr "/a/c") (VStr "/x") hollow_store
  = (<[1 := ODict {[ "c" := VInt 1 ]}]> hollow_store, Ok tt).
Proof.
  refine (proj1 (match_up_binds_final_key
           hollow_store (VRef 0) (VRef 2) (VStr "/x") "/a/c"
           1 ∅ (VInt 1) None _ _ _ _)).
  - reflexivity.
  - reflexivity.
  - discriminate.
  - reflexivity.
Defined.

(** * match_up_extra *)

Lemma for_each_cons {S A} (x : A) (r : list A) (body : A -> ST S unit) (s : S) :
  for_each (x :: r) body s =
  match body x s with
  | (s', Ok _) => for_each r body s'
  | (s', Raise e) => (s', Raise e)
  end.
Proof. reflexivity. Qed.

Lemma any_ok_pure {A} (f : A -> res bool) (g : A -> bool) (l : list A) :
  (forall x, x ∈ l -> f x = Ok (g x)) -> any_ok f l = Ok (existsb g l).
Proof.
  induction l as [|x l IH]; intros Hf; simpl; [reflexivity|].
  rewrite Hf by left. simpl. destruct (g x); [reflexivity|].
  apply IH. intros y Hy. apply Hf. right. assumption.
Qed.

Lemma py_eq_str fuel h k b :
  py_eq fuel h (VStr k) b = Ok (bool_decide (VStr k = b)).
Proof.
  destruct fuel; simpl; destruct (bool_decide (VStr k = b)); reflexivity.
Qed.

Lemma existsb_bool_decide_elem (v : val) (xs : list val) :
  existsb (fun b => bool_decide (v = b)) xs = bool_decide (v ∈ xs).
Proof.
  induction xs as [|x xs IH]; simpl.
  - reflexivity.
  - rewrite IH. destruct (decide (v = x)) as [->|Hne].
    + rewrite bool_decide_eq_true_2 by reflexivity. simpl.
      symmetry. apply bool_decide_eq_true_2. left.
    + rewrite (bool_decide_eq_false_2 _ Hne). simpl.
      apply bool_decide_ext. rewrite elem_of_cons. tauto.
Qed.

(** On a name, [key in keys_to_exclude] never raises on a collection and
    answers as [excluded] says. *)
Lemma py_in_str fuel h k c :
  is_collection h c = true -> py_in fuel h (VStr k) c = Ok (excluded h k c).
Proof.
  destruct c as [| | | s | l]; simpl; try discriminate; [reflexivity|].
  intros Hc. apply bool_decide_eq_true in Hc. destruct Hc as [o Ho].
  rewrite Ho. destruct o as [m|xs]; [reflexivity|].
  rewrite (any_ok_pure _ (fun b => bool_decide (VStr k = b))).
  - rewrite existsb_bool_decide_elem. reflexivity.
  - intros x _. apply py_eq_str.
Qed.

Section MatchUpExtra.

Variables (fuel : nat) (h0 : heap) (lt ls : loc) (mt ms : gmap string val)
          (excl : val).
Hypothesis Hto : h0 !! lt = Some (ODict mt).
Hypothesis Hfrom : h0 !! ls = Some (ODict ms).
Hypothesis Hcoll : is_collection h0 excl = true.

(** The store while the loop runs: only the target has changed. *)
Local Abbreviation during mi := (<[lt := ODict mi]> h0).

Lemma during_collection mi : is_collection (during mi) excl = true.
Proof.
  destruct excl as [| | | s | l]; simpl in *; try discriminate;
    [reflexivity|].
  apply bool_decide_eq_true. apply bool_decide_eq_true in Hcoll.
  destruct (decide (lt = l)) as [->|Hne].
  - rewrite lookup_insert_eq. eauto.
  - rewrite lookup_insert_ne by assumption. assumption.
Qed.

(** A name not yet written is excluded now iff it was at the start, also
    when the collection is the target itself. *)
Lemma during_excluded mi k :
  mi !! k = mt !! k -> excluded (during mi) k excl = excluded h0 k excl.
Proof.
  intros Hk. destruct excl as [| | | s | l]; simpl; try reflexivity.
  destruct (decide (lt = l)) as [<-|Hne].
  - rewrite lookup_insert_eq, Hto. apply bool_decide_ext.
    rewrite !elem_of_dom, Hk. reflexivity.
  - rewrite lookup_insert_ne by assumption. reflexivity.
Qed.

(** ... and the source still has its value for it, also when the source
    is the target itself. *)
Lemma during_source mi k :
  mi !! k = mt !! k ->
  get_v (during mi) (VRef ls) (VStr k) = Ok (default VNone (ms !! k)).
Proof.
  intros Hk. unfold get_v, dict_get.
  destruct (decide (lt = ls)) as [<-|Hne].
  - rewrite lookup_insert_eq, Hk. rewrite Hto in Hfrom. congruence.
  - rewrite lookup_insert_ne by assumption. rewrite Hfrom. reflexivity.
Qed.

Local Abbreviation body := (copy_unless_excluded fuel (VRef lt) (VRef ls) excl).

Lemma body_excluded mi k :
  mi !! k = mt !! k -> excluded h0 k excl = true ->
  body (VStr k) (during mi) = (during mi, Ok tt).
Proof.
  intros Hk Hex. unfold copy_unless_excluded, bind, read.
  rewrite py_in_str by apply during_collection.
  rewrite during_excluded, Hex by assumption. reflexivity.
Qed.

Lemma body_copied mi k :
  mi !! k = mt !! k -> excluded h0 k excl = false ->
  body (VStr k) (during mi)
  = (during (<[k := default VNone (ms !! k)]> mi), Ok tt).
Proof.
  intros Hk Hex. unfold copy_unless_excluded, bind, read.
  rewrite py_in_str by apply during_collection.
  rewrite during_excluded, Hex by assumption.
  rewrite during_source by assumption.
  unfold setitem. rewrite lookup_insert_eq, insert_insert_eq.
  reflexivity.
Qed.

(** The loop over the names [R] still to visit. *)
Lemma match_up_extra_loop (R : list string) :
  NoDup R ->
  forall mi, (forall k, k ∈ R -> mi !! k = mt !! k) ->
  exists mf,
    for_each (VStr <$> R) body (during mi) = (during mf, Ok tt) /\
    (forall k, k ∉ R -> mf !! k = mi !! k) /\
    (forall k, k ∈ R -> excluded h0 k excl = true -> mf !! k = mi !! k) /\
    (forall k, k ∈ R -> excluded h0 k excl = false ->
       mf !! k = Some (default VNone (ms !! k))).
Proof.
  induction 1 as [|k R Hk Hnd IH]; intros mi Hmi.
  - exists mi. repeat split; try reflexivity;
      intros k Hk; exfalso; revert Hk; apply not_elem_of_nil.
  - rewrite fmap_cons, for_each_cons.
    assert (Hmik : mi !! k = mt !! k) by (apply Hmi; left).
    destruct (excluded h0 k excl) eqn:Hex.
    + rewrite body_excluded by assumption.
      destruct (IH mi) as (mf & Hrun & Hout & Hin & Hcp).
      { intros k' Hk'. apply Hmi. right. assumption. }
      exists mf. split; [assumption|]. repeat split.
      * intros k' Hk'. apply Hout. intros ?. apply Hk'. right. assumption.
      * intros k' Hk' Hex'. apply elem_of_cons in Hk' as [->|Hk'];
          [apply Hout; assumption|apply Hin; assumption].
      * intros k' Hk' Hex'. apply elem_of_cons in Hk' as [->|Hk'];
          [congruence|apply Hcp; assumption].
    + rewrite body_copied by assumption.
      set (v := default VNone (ms !! k)).
      assert (Hfresh : forall k', k' ∈ R -> k' <> k) by (intros k' ? ->; auto).
      destruct (IH (<[k := v]> mi)) as (mf & Hrun & Hout & Hin & Hcp).
      { intros k' Hk'. rewrite lookup_insert_ne by (intros ->; auto).
        apply Hmi. right. assumption. }
      exists mf. split; [assumption|]. repeat split.
      * intros k' Hk'. rewrite Hout by (intros ?; apply Hk'; right; assumption).
        apply lookup_insert_ne. intros ->. apply Hk'. left.
      * intros k' Hk' Hex'. apply elem_of_cons in Hk' as [->|Hk'];
          [congruence|].
        rewrite Hin by assumption. apply lookup_insert_ne.
        intros ->. auto.
      * intros k' Hk' Hex'. apply elem_of_cons in Hk' as [->|Hk'].
        -- rewrite Hout by assumption. apply lookup_insert_eq.
        -- apply Hcp; assumption.
Qed.

Lemma match_up_extra_run :
  exists mt',
    match_up_extra fuel (VRef lt) (VRef ls) excl h0
      = (<[lt := ODict mt']> h0, Ok tt) /\
    (forall k v, ms !! k = Some v -> excluded h0 k excl = false ->
       mt' !! k = Some v) /\
    (forall k, excluded h0 k excl = true -> mt' !! k = mt !! k) /\
    (forall k, ms !! k = None -> mt' !! k = mt !! k).
Proof.
  destruct (match_up_extra_loop (elements (dom ms)) (NoDup_elements _) mt)
    as (mf & Hrun & Hout & Hin & Hcp); [reflexivity|].
  exists mf. split.
  - rewrite (insert_id h0 lt (ODict mt) Hto) in Hrun.
    unfold match_up_extra, bind, read, py_iter. rewrite Hfrom. exact Hrun.
  - repeat split.
    + intros k v Hk Hex. rewrite Hcp by (try apply elem_of_elements, elem_of_dom; eauto).
      rewrite Hk. reflexivity.
    + intros k Hex. destruct (decide (k ∈ elements (dom ms))); auto.
    + intros k Hk. apply Hout. rewrite elem_of_elements, elem_of_dom, Hk.
      intros [? ?]. discriminate.
Qed.

End MatchUpExtra.

(** C8: with a target and a source mapping and a collection of excluded
    names, [match_up_extra] returns normally; afterwards the target binds
    every top-level name of the source that is not excluded to the source's
    own value for it (the same reference when the value is an object), the
    target's entries under excluded names are as they were, and no other
    object has changed. *)
Theorem match_up_extra_copies_unexcluded
    (fuel : nat) (h : heap) (lt ls : loc) (mt ms : gmap string val)
    (excl : val) :
  h !! lt = Some (ODict mt) ->
  h !! ls = Some (ODict ms) ->
  is_collection h excl = true ->
  exists mt',
    match_up_extra fuel (VRef lt) (VRef ls) excl h
      = (<[lt := ODict mt']> h, Ok tt) /\
    (forall k v, ms !! k = Some v -> excluded h k excl = false ->
       mt' !! k = Some v) /\
    (forall k, excluded h k excl = true -> mt' !! k = mt !! k) /\
    (forall l, l <> lt -> <[lt := ODict mt']> h !! l = h !! l).
Proof.
  intros Hto Hfrom Hcoll.
  destruct (match_up_extra_run fuel h lt ls mt ms excl Hto Hfrom Hcoll)
    as (mt' & Hrun & Hcp & Hex & _).
  exists mt'. repeat split; try assumption.
  intros l Hl. apply lookup_insert_ne. congruence.
Qed.

Lemma match_up_extra_copies_unexcluded_witness :
  exists mt',
    match_up_extra 0 (VRef 0) (VRef 1) (VRef 2) merge_store
      = (<[0 := ODict mt']> merge_store, Ok tt) /\
    mt' !! "name" = Some (VStr "new") /\
    mt' !! "tags" = Some (VRef 3) /\
    mt' !! "id" = Some (VInt 7).
Proof.
  destruct (match_up_extra_copies_unexcluded 0 merge_store 0 1
              (<["id" := VInt 7]> {[ "name" := VStr "old" ]})
              (<["id" := VInt 9]> (<["name" := VStr "new"]>
                 {[ "tags" := VRef 3 ]}))
              (VRef 2) eq_refl eq_refl eq_refl)
    as (mt' & Hrun & Hcp & Hex & _).
  exists mt'. split; [exact Hrun|]. split; [|split].
  - apply Hcp; reflexivity.
  - apply Hcp; reflexivity.
  - rewrite Hex by reflexivity. reflexivity.
Defined.

(** * remove_member *)

Lemma forallb_elem {A} (f : A -> bool) (l : list A) :
  forallb f l = true <-> forall x, x ∈ l -> f x = true.
Proof.
  rewrite forallb_forall. split; intros H x Hx; apply H;
    apply list_elem_of_In; assumption.
Qed.

Lemma for_each_fixed {S A} (l : list A) (body : A -> ST S unit) (s : S) :
  (forall x, x ∈ l -> body x s = (s, Ok tt)) -> for_each l body s = (s, Ok tt).
Proof.
  induction l as [|x l IH]; intros Hb; [reflexivity|].
  rewrite for_each_cons, Hb by left.
  apply IH. intros y Hy. apply Hb. right. assumption.
Qed.

Lemma doc_dict n h l (m : gmap string val) k v :
  doc (S n) h (VRef l) = true -> h !! l = Some (ODict m) -> m !! k = Some v ->
  doc n h v = true.
Proof.
  simpl. intros Hd Hl Hk. rewrite Hl in Hd.
  rewrite forallb_elem in Hd.
  apply (Hd (k, v)). apply elem_of_map_to_list. assumption.
Qed.

Lemma doc_list n h l (xs : list val) x :
  doc (S n) h (VRef l) = true -> h !! l = Some (OList xs) -> x ∈ xs ->
  doc n h x = true.
Proof.
  simpl. intros Hd Hl Hx. rewrite Hl in Hd.
  rewrite forallb_elem in Hd. apply Hd. assumption.
Qed.

Lemma reach_scalar h v l : reach h v l -> exists l0, v = VRef l0.
Proof. destruct 1; eauto. Qed.

Section RemoveMember.

Variable member : string.

Lemma strip1_idemp o : strip1 member (strip1 member o) = strip1 member o.
Proof. destruct o; simpl; [rewrite delete_delete_eq|]; reflexivity. Qed.

Lemma stripped_refl h : stripped_of member h h.
Proof. intros l. left. reflexivity. Qed.

Lemma stripped_trans h1 h2 h3 :
  stripped_of member h1 h2 -> stripped_of member h2 h3 ->
  stripped_of member h1 h3.
Proof.
  intros H12 H23 l.
  destruct (H23 l) as [E|E]; destruct (H12 l) as [E'|E']; rewrite E, ?E'; auto.
  right. destruct (h1 !! l); simpl; [rewrite strip1_idemp|]; reflexivity.
Qed.

Lemma stripped_pop h l (m : gmap string val) :
  h !! l = Some (ODict m) ->
  stripped_of member h (<[l := ODict (delete member m)]> h).
Proof.
  intros Hl l'. destruct (decide (l = l')) as [<-|Hne].
  - right. rewrite lookup_insert_eq, Hl. reflexivity.
  - left. apply lookup_insert_ne. assumption.
Qed.

(** Backwards: a mapping of the stripped store is a mapping of the
    original one, with [member] perhaps taken out. *)
Lemma stripped_dict h h' l (m' : gmap string val) :
  stripped_of member h h' -> h' !! l = Some (ODict m') ->
  exists m, h !! l = Some (ODict m) /\ (m' = m \/ m' = delete member m).
Proof.
  intros Hs Hl. destruct (Hs l) as [E|E]; rewrite Hl in E.
  - eauto.
  - destruct (h !! l) as [[m|xs]|]; simpl in E; try discriminate.
    injection E as ->. eauto.
Qed.

Lemma stripped_list h h' l (xs : list val) :
  stripped_of member h h' -> h' !! l = Some (OList xs) ->
  h !! l = Some (OList xs).
Proof.
  intros Hs Hl. destruct (Hs l) as [E|E]; rewrite Hl in E.
  - congruence.
  - destruct (h !! l) as [[m|ys]|]; simpl in E; try discriminate.
    congruence.
Qed.

(** Forwards: an object without [member] stays as it is. *)
Lemma stripped_keeps_dict h h' l (m : gmap string val) :
  stripped_of member h h' -> h !! l = Some (ODict m) -> m !! member = None ->
  h' !! l = Some (ODict m).
Proof.
  intros Hs Hl Hm. destruct (Hs l) as [E|E]; rewrite E, Hl; [reflexivity|].
  simpl. rewrite delete_id by assumption. reflexivity.
Qed.

Lemma stripped_keeps_list h h' l (xs : list val) :
  stripped_of member h h' -> h !! l = Some (OList xs) ->
  h' !! l = Some (OList xs).
Proof.
  intros Hs Hl. destruct (Hs l) as [E|E]; rewrite E, Hl; reflexivity.
Qed.

Lemma stripped_edge h h' l v :
  stripped_of member h h' -> edge h' l v -> edge h l v.
Proof.
  intros Hs [l0 m' k v0 Hl Hk | l0 xs v0 Hl Hx].
  - destruct (stripped_dict _ _ _ _ Hs Hl) as (m & Hm & [->| ->]).
    + eapply edge_dict; eassumption.
    + apply lookup_delete_Some in Hk as [_ Hk].
      eapply edge_dict; eassumption.
  - eapply edge_list; [|eassumption].
    eapply stripped_list; eassumption.
Qed.

Lemma stripped_reach h h' v l :
  stripped_of member h h' -> reach h' v l -> reach h v l.
Proof.
  intros Hs. induction 1 as [l|l v l' He _ IH].
  - apply reach_here.
  - eapply reach_step; [|exact IH]. eapply stripped_edge; eassumption.
Qed.

Lemma clean_stripped h h' v :
  stripped_of member h h' -> clean member h v -> clean member h' v.
Proof.
  intros Hs Hc l m' Hr Hl.
  destruct (stripped_dict _ _ _ _ Hs Hl) as (m & Hm & [->| ->]).
  - eapply Hc; [eapply stripped_reach|]; eassumption.
  - apply lookup_delete_eq.
Qed.

Lemma doc_stripped n : forall h h' v,
  stripped_of member h h' -> doc n h v = true -> doc n h' v = true.
Proof.
  induction n as [|n IH]; intros h h' v Hs Hd;
    destruct v as [| | | |l]; try reflexivity; [discriminate|].
  simpl. destruct (h' !! l) as [[m'|xs]|] eqn:Hl.
  - destruct (stripped_dict _ _ _ _ Hs Hl) as (m & Hm & Hsub).
    apply forallb_elem. intros [k v] Hkv. simpl.
    apply elem_of_map_to_list in Hkv.
    apply (IH h h' v Hs). apply (doc_dict n h l m k v Hd Hm).
    destruct Hsub as [->| ->]; [assumption|].
    apply lookup_delete_Some in Hkv as [_ Hkv]. assumption.
  - pose proof (stripped_list _ _ _ _ Hs Hl) as Hm.
    apply forallb_elem. intros x Hx.
    apply (IH h h' x Hs). apply (doc_list n h l xs x Hd Hm Hx).
  - destruct (Hs l) as [E|E]; rewrite Hl in E; simpl in Hd;
      destruct (h !! l); simpl in E; congruence.
Qed.

End RemoveMember.

Section RemoveMemberRun.

Variable member : string.

Lemma remove_member_scalar f v h :
  (forall l, v <> VRef l) -> remove_member (S f) v member h = (h, Ok tt).
Proof. destruct v; intros Hv; try reflexivity. exfalso. eapply Hv. reflexivity. Qed.

Lemma remove_member_dict f l (m : gmap string val) h :
  h !! l = Some (ODict m) ->
  remove_member (S f) (VRef l) member h =
  (pop_member l m member ;;;
   for_each (elements (dom (delete member m))) (fun key =>
     v <- read (fun h' => dict_get h' (VRef l) key) ;;
     remove_member f v member)) h.
Proof. intros Hl. cbn [remove_member]. rewrite Hl. reflexivity. Qed.

Lemma remove_member_list f l (xs : list val) h :
  h !! l = Some (OList xs) ->
  remove_member (S f) (VRef l) member h =
  for_each xs (fun one => remove_member f one member) h.
Proof. intros Hl. cbn [remove_member]. rewrite Hl. reflexivity. Qed.

Lemma pop_member_run l (m : gmap string val) h :
  h !! l = Some (ODict m) ->
  exists h1, pop_member l m member h = (h1, Ok tt) /\
             stripped_of member h h1 /\
             h1 !! l = Some (ODict (delete member m)).
Proof.
  intros Hl. unfold pop_member. case_bool_decide as Hin.
  - eexists. split; [reflexivity|]. split.
    + apply stripped_pop. assumption.
    + apply lookup_insert_eq.
  - exists h. split; [reflexivity|]. split; [apply stripped_refl|].
    rewrite delete_id by (apply not_elem_of_dom; assumption). assumption.
Qed.

Lemma pop_member_absent l (m : gmap string val) h :
  m !! member = None -> pop_member l m member h = (h, Ok tt).
Proof.
  intros Hm. unfold pop_member. rewrite bool_decide_eq_false_2; [reflexivity|].
  apply not_elem_of_dom. assumption.
Qed.

(** The two loops, given that the calls one level down do their work. *)
Section Loops.

Variables (n f : nat).
Hypothesis below : forall h v,
  doc n h v = true ->
  exists h', remove_member f v member h = (h', Ok tt) /\
             stripped_of member h h' /\ clean member h' v.

Lemma remove_member_dict_loop l (m' : gmap string val) :
  m' !! member = None ->
  forall (K : list string) hi,
    hi !! l = Some (ODict m') ->
    (forall k v, m' !! k = Some v -> doc n hi v = true) ->
    exists hf,
      for_each K (fun key =>
        v <- read (fun h' => dict_get h' (VRef l) key) ;;
        remove_member f v member) hi = (hf, Ok tt) /\
      stripped_of member hi hf /\
      (forall k v, k ∈ K -> m' !! k = Some v -> clean member hf v).
Proof.
  intros Hm. induction K as [|k K IH]; intros hi Hl Hdoc.
  - exists hi. split; [reflexivity|]. split; [apply stripped_refl|].
    intros k v Hk. exfalso. revert Hk. apply not_elem_of_nil.
  - rewrite for_each_cons. unfold bind at 1, read at 1, dict_get at 1.
    rewrite Hl.
    assert (Hvk : doc n hi (default VNone (m' !! k)) = true).
    { destruct (m' !! k) eqn:Hk; [eapply Hdoc; eassumption|].
      destruct n; reflexivity. }
    destruct (below hi _ Hvk) as (h2 & Hrun & Hs2 & Hc2).
    rewrite Hrun.
    destruct (IH h2) as (hf & Hloop & Hsf & Hcf).
    { eapply stripped_keeps_dict; eassumption. }
    { intros k' v' Hk'. eapply doc_stripped; [eassumption|].
      eapply Hdoc; eassumption. }
    exists hf. split; [assumption|]. split.
    + eapply stripped_trans; eassumption.
    + intros k' v' Hk' Hv'. apply elem_of_cons in Hk' as [->|Hk'].
      * rewrite Hv' in Hc2. simpl in Hc2.
        eapply clean_stripped; eassumption.
      * eapply Hcf; eassumption.
Qed.

Lemma remove_member_list_loop :
  forall (xs : list val) hi,
    (forall x, x ∈ xs -> doc n hi x = true) ->
    exists hf,
      for_each xs (fun one => remove_member f one member) hi = (hf, Ok tt) /\
      stripped_of member hi hf /\
      (forall x, x ∈ xs -> clean member hf x).
Proof.
  induction xs as [|x xs IH]; intros hi Hdoc.
  - exists hi. split; [reflexivity|]. split; [apply stripped_refl|].
    intros x Hx. exfalso. revert Hx. apply not_elem_of_nil.
  - rewrite for_each_cons.
    destruct (below hi x) as (h2 & Hrun & Hs2 & Hc2); [apply Hdoc; left|].
    rewrite Hrun.
    destruct (IH h2) as (hf & Hloop & Hsf & Hcf).
    { intros y Hy. eapply doc_stripped; [eassumption|].
      apply Hdoc. right. assumption. }
    exists hf. split; [assumption|]. split.
    + eapply stripped_trans; eassumption.
    + intros y Hy. apply elem_of_cons in Hy as [->|Hy].
      * eapply clean_stripped; eassumption.
      * apply Hcf. assumption.
Qed.

End Loops.

(** On a document nested at most [n] deep, [remove_member] returns within
    [n + 1] nested calls, has only taken [member] out of mappings, and
    leaves no mapping of the document with [member]. *)
Lemma remove_member_run n : forall f, n <= f -> forall h v,
  doc n h v = true ->
  exists h', remove_member (S f) v member h = (h', Ok tt) /\
             stripped_of member h h' /\ clean member h' v.
Proof.
  induction n as [|n IH]; intros f Hf h v Hd.
  - destruct v as [| | | |l]; try discriminate Hd;
      (exists h; split; [reflexivity|]; split; [apply stripped_refl|];
       intros l m Hr; apply reach_scalar in Hr as [? ?]; discriminate).
  - destruct v as [| | | |l];
      try (exists h; split; [reflexivity|]; split; [apply stripped_refl|];
           intros l m Hr; apply reach_scalar in Hr as [? ?]; discriminate).
    destruct f as [|f]; [lia|].
    assert (Hbelow : forall h v, doc n h v = true ->
              exists h', remove_member (S f) v member h = (h', Ok tt) /\
                         stripped_of member h h' /\ clean member h' v)
      by (apply IH; lia).
    destruct (h !! l) as [[m|xs]|] eqn:Hl.
    + rewrite (remove_member_dict _ _ _ _ Hl). unfold bind at 1.
      destruct (pop_member_run l m h Hl) as (h1 & Hpop & Hs1 & Hl1).
      rewrite Hpop.
      destruct (remove_member_dict_loop n (S f) Hbelow l (delete member m)
                  (lookup_delete_eq m member)
                  (elements (dom (delete member m))) h1 Hl1)
        as (hf & Hloop & Hsf & Hcf).
      { intros k v Hk. apply lookup_delete_Some in Hk as [_ Hk].
        eapply doc_stripped; [eassumption|]. eapply doc_dict; eassumption. }
      exists hf. split; [assumption|]. split;
        [eapply stripped_trans; eassumption|].
      assert (Hlf : hf !! l = Some (ODict (delete member m))).
      { eapply stripped_keeps_dict; [eassumption|assumption|].
        apply lookup_delete_eq. }
      intros l' m' Hr Hl'. inversion Hr as [l0|l0 v l0' He Hr']; subst.
      * rewrite Hlf in Hl'. injection Hl' as <-. apply lookup_delete_eq.
      * destruct He as [l0 m0 k v Hl0 Hk|l0 xs v Hl0 Hx];
          rewrite Hlf in Hl0; [|discriminate].
        injection Hl0 as <-.
        eapply (Hcf k v); try eassumption.
        apply elem_of_elements, elem_of_dom. eauto.
    + rewrite (remove_member_list _ _ _ _ Hl).
      destruct (remove_member_list_loop n (S f) Hbelow xs h)
        as (hf & Hloop & Hsf & Hcf).
      { intros x Hx. eapply doc_list; eassumption. }
      exists hf. split; [assumption|]. split; [assumption|].
      assert (Hlf : hf !! l = Some (OList xs))
        by (eapply stripped_keeps_list; eassumption).
      intros l' m' Hr Hl'. inversion Hr as [l0|l0 v l0' He Hr']; subst.
      * congruence.
      * destruct He as [l0 m0 k v Hl0 Hk|l0 ys v Hl0 Hx];
          rewrite Hlf in Hl0; [discriminate|].
        injection Hl0 as <-. eapply (Hcf v); eassumption.
    + simpl in Hd. rewrite Hl in Hd. discriminate.
Qed.

(** On a document that has [member] nowhere, [remove_member] changes
    nothing. *)
Lemma remove_member_clean n : forall f, n <= f -> forall h v,
  doc n h v = true -> clean member h v ->
  remove_member (S f) v member h = (h, Ok tt).
Proof.
  induction n as [|n IH]; intros f Hf h v Hd Hc.
  - destruct v; try discriminate Hd; reflexivity.
  - destruct v as [| | | |l]; try reflexivity.
    destruct f as [|f]; [lia|].
    destruct (h !! l) as [[m|xs]|] eqn:Hl.
    + assert (Hm : m !! member = None) by (eapply Hc; [apply reach_here|eassumption]).
      rewrite (remove_member_dict _ _ _ _ Hl). unfold bind at 1.
      rewrite (pop_member_absent _ _ _ Hm), (delete_id _ _ Hm).
      apply for_each_fixed. intros k Hk.
      apply elem_of_elements, elem_of_dom in Hk as [v Hk].
      unfold bind, read, dict_get. rewrite Hl, Hk. simpl.
      apply IH; [lia|eapply doc_dict; eassumption|].
      intros l' m' Hr. eapply Hc. eapply reach_step; [|eassumption].
      eapply edge_dict; eassumption.
    + rewrite (remove_member_list _ _ _ _ Hl).
      apply for_each_fixed. intros x Hx.
      apply IH; [lia|eapply doc_list; eassumption|].
      intros l' m' Hr. eapply Hc. eapply reach_step; [|eassumption].
      eapply edge_list; eassumption.
    + simpl in Hd. rewrite Hl in Hd. discriminate.
Qed.

End RemoveMemberRun.

(** C5: on every document (nested at most [n] deep, with [n] below the
    recursion limit) [remove_member] returns normally; afterwards no
    mapping at any depth of the document, also inside sequence elements,
    has the key [member], nothing but [member] was taken out, and a second
    call with the same [member] leaves the store as it is. *)
Theorem remove_member_strips_everywhere
    (n fuel : nat) (h : heap) (data : val) (member : string) :
  (n < fuel)%nat ->
  doc n h data = true ->
  exists h',
    remove_member fuel data member h = (h', Ok tt) /\
    (forall l m, reach h' data l -> h' !! l = Some (ODict m) ->
       m !! member = None) /\
    stripped_of member h h' /\
    remove_member fuel data member h' = (h', Ok tt).
Proof.
  intros Hn Hd. destruct fuel as [|f]; [lia|].
  destruct (remove_member_run member n f ltac:(lia) h data Hd)
    as (h' & Hrun & Hs & Hc).
  exists h'. repeat split; try assumption.
  apply (remove_member_clean member n); [lia| |assumption].
  eapply doc_stripped; eassumption.
Qed.

Lemma remove_member_strips_everywhere_witness :
  exists h',
    remove_member 4 (VRef 0) "href" href_store = (h', Ok tt) /\
    (forall l m, reach h' (VRef 0) l -> h' !! l = Some (ODict m) ->
       m !! "href" = None) /\
    stripped_of "href" href_store h' /\
    remove_member 4 (VRef 0) "href" h' = (h', Ok tt).
Proof.
  apply (remove_member_strips_everywhere 3 4 href_store (VRef 0) "href").
  - lia.
  - vm_compute. reflexivity.
Defined.

(** The same run, computed: [href] is gone from the document, from the
    element of its list and from [meta]. *)
Example remove_member_href :
  remove_member 4 (VRef 0) "href" href_store =
  (<[0 := ODict (<["items" := VRef 1]> {[ "meta" := VRef 3 ]})]>
   (<[1 := OList [VRef 2]]>
   (<[2 := ODict {[ "id" := VInt 1 ]}]>
   (<[3 := ODict ∅]> ∅))), Ok tt).
Proof. vm_compute. reflexivity. Qed.

(** * has_extra *)

Lemma any_ok_ext {A} (f g : A -> res bool) (l : list A) :
  (forall x, x ∈ l -> f x = g x) -> any_ok f l = any_ok g l.
Proof.
  induction l as [|x l IH]; intros Hfg; simpl; [reflexivity|].
  rewrite Hfg by left. destruct (g x) as [[|]|]; simpl; try reflexivity.
  apply IH. intros y Hy. apply Hfg. right. assumption.
Qed.

Lemma any_ok_fmap {A B} (f : B -> res bool) (g : A -> B) (l : list A) :
  any_ok f (g <$> l) = any_ok (fun x => f (g x)) l.
Proof.
  induction l as [|x l IH]; simpl; [reflexivity|].
  destruct (f (g x)) as [[|]|]; simpl; try reflexivity. apply IH.
Qed.

Lemma existsb_negb_forallb {A} (p : A -> bool) (l : list A) :
  existsb (fun x => negb (p x)) l = negb (forallb p l).
Proof.
  induction l as [|x l IH]; simpl; [reflexivity|].
  rewrite IH. destruct (p x); reflexivity.
Qed.

Lemma forallb_pointwise {A} (p q : A -> bool) (l : list A) :
  (forall x, p x = q x) -> forallb p l = forallb q l.
Proof.
  intros Hpq. induction l as [|x l IH]; simpl; [reflexivity|].
  rewrite Hpq, IH. reflexivity.
Qed.

(** One call of [has_extra] on two mappings, as a loop over the names of
    the source. *)
Lemma has_extra_dicts f h ls le (ms me : gmap string val) :
  h !! ls = Some (ODict ms) -> h !! le = Some (ODict me) ->
  has_extra (S f) h (VRef ls) (VRef le) =
  any_ok (fun k =>
    match me !! k with
    | Some x =>
        if truthy h x then has_extra f h (default VNone (ms !! k)) x
        else Ok false
    | None => Ok true
    end) (elements (dom ms)).
Proof.
  intros Hs He. cbn [has_extra]. unfold py_iter. rewrite Hs.
  cbv beta iota delta [res_bind]. rewrite any_ok_fmap.
  apply any_ok_ext. intros k _.
  unfold dict_keys, key_in_keys, get_v, dict_get. rewrite He, Hs.
  cbv beta iota delta [res_bind].
  destruct (me !! k) as [x|] eqn:Hk.
  - rewrite bool_decide_eq_true_2
      by (apply elem_of_elements, elem_of_dom; eauto).
    reflexivity.
  - rewrite bool_decide_eq_false_2; [reflexivity|].
    rewrite elem_of_elements, elem_of_dom, Hk. intros [? ?]. discriminate.
Qed.

Lemma shaped_dicts n h source excl :
  shaped n h source excl = true ->
  exists ls le ms me,
    source = VRef ls /\ excl = VRef le /\
    h !! ls = Some (ODict ms) /\ h !! le = Some (ODict me).
Proof.
  destruct n; simpl;
    destruct source as [| | | |ls]; try discriminate;
    destruct excl as [| | | |le]; try discriminate;
    destruct (h !! ls) as [[ms|?]|] eqn:Hs; try discriminate;
    destruct (h !! le) as [[me|?]|] eqn:He; try discriminate;
    intros _; exists ls, le, ms, me; auto.
Qed.

Lemma shaped_below n h ls le (ms me : gmap string val) k x :
  shaped n h (VRef ls) (VRef le) = true ->
  h !! ls = Some (ODict ms) -> h !! le = Some (ODict me) ->
  k ∈ elements (dom ms) -> me !! k = Some x -> truthy h x = true ->
  exists n', n = S n' /\ shaped n' h (default VNone (ms !! k)) x = true.
Proof.
  intros Hsh Hs He Hk Hx Ht.
  destruct n as [|n']; simpl in Hsh; rewrite Hs, He in Hsh;
    rewrite forallb_elem in Hsh; specialize (Hsh k Hk); simpl in Hsh;
    rewrite Hx, Ht in Hsh; [discriminate|eauto].
Qed.

(** On well-shaped arguments [has_extra] returns, and answers whether some
    attribute is not accounted for. *)
Lemma has_extra_accounted n : forall f h source excl,
  n <= f ->
  shaped n h source excl = true ->
  has_extra (S f) h source excl = Ok (negb (accounted truthy n h source excl)).
Proof.
  induction n as [|n IH]; intros f h source excl Hf Hsh;
    destruct (shaped_dicts _ _ _ _ Hsh)
      as (ls & le & ms & me & -> & -> & Hs & He);
    rewrite (has_extra_dicts f h ls le ms me Hs He).
  - rewrite (any_ok_pure _ (fun k => negb
      match me !! k with Some x => negb (truthy h x) | None => false end)).
    + rewrite existsb_negb_forallb. f_equal. f_equal.
      cbn [accounted]. unfold attrs. rewrite Hs, He.
      apply forallb_pointwise. intros k. destruct (me !! k); [|reflexivity].
      destruct (truthy h v); reflexivity.
    + intros k Hk. destruct (me !! k) as [x|] eqn:Hx; [|reflexivity].
      destruct (truthy h x) eqn:Ht; [|reflexivity].
      destruct (shaped_below _ _ _ _ _ _ _ _ Hsh Hs He Hk Hx Ht) as (? & ? & _).
      discriminate.
  - rewrite (any_ok_pure _ (fun k => negb
      match me !! k with
      | Some x => if truthy h x
                  then accounted truthy n h (default VNone (ms !! k)) x
                  else true
      | None => false
      end)).
    + rewrite existsb_negb_forallb. f_equal. f_equal.
      cbn [accounted]. unfold attrs. rewrite Hs, He. reflexivity.
    + intros k Hk. destruct (me !! k) as [x|] eqn:Hx; [|reflexivity].
      destruct (truthy h x) eqn:Ht; [|reflexivity].
      destruct (shaped_below _ _ _ _ _ _ _ _ Hsh Hs He Hk Hx Ht)
        as (n' & Hn & Hsub).
      injection Hn as <-.
      destruct f as [|f]; [lia|]. apply IH; [lia|assumption].
Qed.

(** C4, as stated, fails: with [source = {"a": {"x": 1}}] and the exclusion
    set [{"a": {}}] the entry of [a] is a nested set and not null, so the
    level [{"x": 1}] is to be visited and [x] is missing from [{}]; yet
    [has_extra] returns false. *)
Lemma empty_nested_set_not_visited :
  ~ (has_extra 2 nest_store (VRef 0) (VRef 2) = Ok false <->
     accounted nested_set 1 nest_store (VRef 0) (VRef 2) = true).
Proof.
  intros [Hcode _].
  assert (Hacc : accounted nested_set 1 nest_store (VRef 0) (VRef 2) = true)
    by (apply Hcode; vm_compute; reflexivity).
  vm_compute in Hacc. discriminate.
Qed.

(** C4, amended: on a source and an exclusion set that are mappings, and
    are so wherever an entry is truthy, [has_extra] returns, and returns
    false if and only if every attribute name, at every level it visits
    (recursing into an attribute exactly when its exclusion-set entry is
    truthy, that is a non-empty nested set), is present in the exclusion
    set at that level. *)
Theorem has_extra_false_iff_accounted
    (n fuel : nat) (h : heap) (source excl : val) :
  (n < fuel)%nat ->
  shaped n h source excl = true ->
  exists b, has_extra fuel h source excl = Ok b /\
            (b = false <-> accounted truthy n h source excl = true).
Proof.
  intros Hn Hsh. destruct fuel as [|f]; [lia|].
  exists (negb (accounted truthy n h source excl)). split.
  - apply has_extra_accounted; [lia|assumption].
  - destruct (accounted truthy n h source excl); simpl; split; congruence.
Qed.

(** The two examples of C4: [{"a": 1, "b": {"c": 2}}] has no extra
    attribute under [{"a": None, "b": {"c": None}}], [{"a": 1, "x": 2}]
    has one. *)
Lemma has_extra_false_iff_accounted_witness :
  has_extra 2 extra_store (VRef 0) (VRef 3) = Ok false /\
  has_extra 2 extra_store (VRef 2) (VRef 3) = Ok true.
Proof.
  split.
  - destruct (has_extra_false_iff_accounted 1 2 extra_store (VRef 0) (VRef 3))
      as (b & Hrun & Hb); [lia|vm_compute; reflexivity|].
    rewrite Hrun. f_equal. apply Hb. vm_compute. reflexivity.
  - destruct (has_extra_false_iff_accounted 1 2 extra_store (VRef 2) (VRef 3))
      as (b & Hrun & Hb); [lia|vm_compute; reflexivity|].
    rewrite Hrun. f_equal. destruct b; [reflexivity|].
    assert (Hacc : accounted truthy 1 extra_store (VRef 2) (VRef 3) = true)
      by (apply Hb; reflexivity).
    vm_compute in Hacc. discriminate.
Defined.

(** The falsy entries: null, false, 0, the empty string, and the empty
    mapping. *)
Lemma falsy_entries (h : heap) (l : loc) :
  truthy h VNone = false /\ truthy h (VBool false) = false /\
  truthy h (VInt 0) = false /\ truthy h (VStr "") = false /\
  (h !! l = Some (ODict ∅) -> truthy h (VRef l) = false).
Proof. repeat split. apply truthy_dict_empty. Qed.

(** C10: an attribute [k] whose entry in the exclusion set is falsy (null,
    false, 0, the empty string or an empty mapping) is fully excluded:
    [has_extra] answers the same whatever the source holds under [k], and
    when every attribute of the source has a falsy entry it returns false
    within a single call, without recursion. *)
Theorem has_extra_falsy_entry_excludes
    (fuel : nat) (h : heap) (ls le : loc) (ms me : gmap string val)
    (k : string) (x : val) :
  h !! ls = Some (ODict ms) ->
  h !! le = Some (ODict me) ->
  is_Some (ms !! k) ->
  me !! k = Some x ->
  truthy h x = false ->
  (forall ls' v', h !! ls' = Some (ODict (<[k := v']> ms)) ->
     has_extra fuel h (VRef ls') (VRef le) = has_extra fuel h (VRef ls) (VRef le))
  /\
  ((forall k', is_Some (ms !! k') ->
      exists x', me !! k' = Some x' /\ truthy h x' = false) ->
   has_extra 1 h (VRef ls) (VRef le) = Ok false).
Proof.
  intros Hs He Hk Hx Ht. split.
  - intros ls' v' Hs'. destruct fuel as [|f]; [reflexivity|].
    rewrite (has_extra_dicts f h ls' le _ me Hs' He).
    rewrite (has_extra_dicts f h ls le ms me Hs He).
    rewrite (dom_insert_lookup_L ms k v' Hk).
    apply any_ok_ext. intros k0 _.
    destruct (decide (k0 = k)) as [->|Hne].
    + rewrite Hx, Ht. reflexivity.
    + rewrite lookup_insert_ne by congruence. reflexivity.
  - intros Hall. rewrite (has_extra_dicts 0 h ls le ms me Hs He).
    rewrite (any_ok_pure _ (fun _ => false)).
    + induction (elements (dom ms)) as [|? ? IH]; [reflexivity|exact IH].
    + intros k0 Hk0. apply elem_of_elements, elem_of_dom in Hk0.
      destruct (Hall k0 Hk0) as (x' & -> & ->). reflexivity.
Qed.

Lemma has_extra_falsy_entry_excludes_witness :
  has_extra 2 nest_store (VRef 4) (VRef 2)
    = has_extra 2 nest_store (VRef 0) (VRef 2) /\
  has_extra 1 nest_store (VRef 0) (VRef 2) = Ok false.
Proof.
  destruct (has_extra_falsy_entry_excludes 2 nest_store 0 2
              {[ "a" := VRef 1 ]} {[ "a" := VRef 3 ]} "a" (VRef 3))
    as [Hsame Hflat]; try reflexivity.
  - exists (VRef 1). reflexivity.
  - split.
    + apply (Hsame 4 (VRef 5)). reflexivity.
    + apply Hflat. intros k' [v Hv].
      apply lookup_singleton_Some in Hv as [<- _].
      exists (VRef 3). split; reflexivity.
Defined.

(** * access_resource *)

Lemma collect_lookup (l : list (string * string)) :
  NoDup l.*1 ->
  forall (init : gmap string string) k,
    collect l init !! k =
    match (list_to_map l : gmap string string) !! k with
    | Some v => Some v
    | None => init !! k
    end.
Proof.
  unfold collect. induction l as [|[k0 v0] l IH]; intros Hnd init k; simpl.
  - rewrite lookup_empty. reflexivity.
  - apply NoDup_cons in Hnd as [Hk0 Hnd]. rewrite IH by assumption.
    destruct (decide (k = k0)) as [->|Hne].
    + rewrite (not_elem_of_list_to_map_1 l k0 Hk0), !lookup_insert_eq.
      reflexivity.
    + rewrite !lookup_insert_ne by congruence. reflexivity.
Qed.

(** Collecting the header list of a message gives back its header dict:
    every header of the response is in [values], with its value. *)
Lemma collect_map_to_list (m : gmap string string) :
  collect (map_to_list m) ∅ = m.
Proof.
  apply map_eq. intros k.
  rewrite collect_lookup by apply NoDup_fst_map_to_list.
  rewrite list_to_map_to_list, lookup_empty. destruct (m !! k); reflexivity.
Qed.

Lemma take_str_length n s :
  String.length (take_str n s) = Nat.min n (String.length s).
Proof.
  revert s. induction n as [|n IH]; intros [|a s]; simpl; try reflexivity.
  rewrite IH. reflexivity.
Qed.

Section ProbeFacts.

Variable backend :
  bool -> string -> Z -> string -> string -> option string ->
  gmap string string -> res response.
Variables (req : request) (method url : option string)
          (query_string body : option string) (r : response).
Hypothesis answered :
  backend (out_ssl req) (server_name req) (server_port req)
          (out_method method) (out_url req url) body (out_headers req) = Ok r.

Lemma round_trip_run w :
  round_trip backend (out_ssl req) (server_name req) (server_port req)
             (out_method method) (out_url req url) body (out_headers req) w
  = ({| log := log w ++ sent req method url body; unread := payload r |}, Ok r).
Proof.
  unfold round_trip, bind, emit. simpl. rewrite answered. simpl.
  rewrite <- !app_assoc. reflexivity.
Qed.

Lemma access_resource_not_found_run get_body w :
  status r = 404%Z \/ status r = 413%Z ->
  access_resource backend req method url get_body query_string body w
  = ({| log := log w ++ sent req method url body ++ [EClose];
        unread := payload r |},
     Ok (false, ∅, None, status r)).
Proof.
  intros Hst. unfold access_resource. unfold bind at 1.
  rewrite round_trip_run.
  assert (Z.eqb (status r) 404 || Z.eqb (status r) 413 = true) as ->.
  { destruct Hst as [-> | ->]; reflexivity. }
  unfold bind, emit, ret. simpl. rewrite <- !app_assoc. reflexivity.
Qed.

Hypothesis success :
  status r = 200%Z \/ status r = 201%Z \/ status r = 204%Z.

Lemma success_branch :
  Z.eqb (status r) 404 || Z.eqb (status r) 413 = false /\
  Z.eqb (status r) 200 || Z.eqb (status r) 204 || Z.eqb (status r) 201 = true.
Proof. destruct success as [-> | [-> | ->]]; split; reflexivity. Qed.

Lemma access_resource_no_body_run w :
  access_resource backend req method url false query_string body w
  = ({| log := log w ++ sent req method url body ++ [EGetHeaders; EClose];
        unread := payload r |},
     Ok (true, msg r, Some "", status r)).
Proof.
  unfold access_resource. unfold bind at 1. rewrite round_trip_run.
  destruct success_branch as [-> ->].
  unfold getheaders, bind, emit, ret. simpl.
  rewrite collect_map_to_list, <- !app_assoc. reflexivity.
Qed.

Lemma access_resource_bounded_body_run w len n :
  msg r !! "content-length" = Some len -> len <> "" ->
  py_int len = Ok n ->
  access_resource backend req method url true query_string body w
  = match snd (reader r (Some n) (payload r)) with
    | Ok b =>
        ({| log := log w ++ sent req method url body
                     ++ [EGetHeaders; EGetHeader "content-length";
                         ERead (Some n); EClose];
            unread := fst (reader r (Some n) (payload r)) |},
         Ok (true, msg r, Some b, status r))
    | Raise e =>
        ({| log := log w ++ sent req method url body
                     ++ [EGetHeaders; EGetHeader "content-length";
                         ERead (Some n)];
            unread := fst (reader r (Some n) (payload r)) |},
         Raise e)
    end.
Proof.
  intros Hlen Hne Hint.
  unfold access_resource. unfold bind at 1. rewrite round_trip_run.
  destruct success_branch as [-> ->].
  unfold getheaders, getheader, res_read, bind, emit, ret, read.
  change (lower "content-length") with "content-length".
  simpl. rewrite Hlen. simpl.
  destruct (String.eqb_spec len ""); [contradiction|]. simpl.
  rewrite Hint. simpl.
  destruct (reader r (Some n) (payload r)) as [left [b|e]]; simpl;
    rewrite ?collect_map_to_list, <- !app_assoc; reflexivity.
Qed.

Lemma access_resource_whole_body_run w :
  msg r !! "content-length" = None \/ msg r !! "content-length" = Some "" ->
  access_resource backend req method url true query_string body w
  = match snd (reader r None (payload r)) with
    | Ok b =>
        ({| log := log w ++ sent req method url body
                     ++ [EGetHeaders; EGetHeader "content-length";
                         ERead None; EClose];
            unread := fst (reader r None (payload r)) |},
         Ok (true, msg r, Some b, status r))
    | Raise e =>
        ({| log := log w ++ sent req method url body
                     ++ [EGetHeaders; EGetHeader "content-length";
                         ERead None];
            unread := fst (reader r None (payload r)) |},
         Raise e)
    end.
Proof.
  intros Hlen.
  unfold access_resource. unfold bind at 1. rewrite round_trip_run.
  destruct success_branch as [-> ->].
  unfold getheaders, getheader, res_read, bind, emit, ret, read.
  change (lower "content-length") with "content-length".
  simpl.
  destruct Hlen as [-> | ->]; simpl;
    destruct (reader r None (payload r)) as [left [b|e]]; simpl;
    rewrite ?collect_map_to_list, <- !app_assoc; reflexivity.
Qed.

Lemma access_resource_bad_length_run w len e :
  msg r !! "content-length" = Some len -> len <> "" ->
  py_int len = Raise e ->
  access_resource backend req method url true query_string body w
  = ({| log := log w ++ sent req method url body
                 ++ [EGetHeaders; EGetHeader "content-length"];
        unread := payload r |},
     Raise e).
Proof.
  intros Hlen Hne Hint.
  unfold access_resource. unfold bind at 1. rewrite round_trip_run.
  destruct success_branch as [-> ->].
  unfold getheaders, getheader, res_read, bind, emit, ret, read.
  change (lower "content-length") with "content-length".
  simpl. rewrite Hlen. simpl.
  destruct (String.eqb_spec len ""); [contradiction|]. simpl.
  rewrite Hint. simpl.
  rewrite <- !app_assoc. reflexivity.
Qed.

End ProbeFacts.

Lemma take_str_all s : take_str (String.length s) s = s.
Proof. induction s as [|a s IH]; simpl; [reflexivity|]. rewrite IH. reflexivity. Qed.

(** C6: when the backend answers 404 or 413 the probe returns exactly
    [(False, {}, None, status)]; it closes the connection without any read
    of the response, so the body is still unread, also when [get_body] is
    set. *)
Theorem access_resource_not_found
    (backend : bool -> string -> Z -> string -> string -> option string ->
               gmap string string -> res response)
    (req : request) (method url : option string) (get_body : bool)
    (query_string body : option string) (r : response) (w : wire) :
  backend (out_ssl req) (server_name req) (server_port req)
          (out_method method) (out_url req url) body (out_headers req) = Ok r ->
  status r = 404%Z \/ status r = 413%Z ->
  let out := access_resource backend req method url get_body query_string body w in
  snd out = Ok (false, ∅, None, status r) /\
  log (fst out) = log w ++ sent req method url body ++ [EClose] /\
  (forall amt, ERead amt ∉ sent req method url body ++ [EClose]) /\
  unread (fst out) = payload r.
Proof.
  intros Hans Hst out. unfold out.
  rewrite (access_resource_not_found_run backend req method url
             query_string body r Hans get_body w Hst).
  repeat split.
  intros amt Hin. unfold sent in Hin. simpl in Hin.
  repeat (apply elem_of_cons in Hin as [Hin|Hin]; [discriminate|]).
  revert Hin. apply not_elem_of_nil.
Qed.

Lemma access_resource_not_found_witness :
  access_resource (fixed_backend 404) plain_request None None true None None
                  fresh_wire
  = ({| log := [EConnect false "cloud" 8774;
                ERequest "GET" "/machines/7" None (out_headers plain_request);
                EGetResponse; EClose];
        unread := "hello world" |},
     Ok (false, ∅, None, 404%Z)).
Proof.
  pose proof (access_resource_not_found (fixed_backend 404) plain_request
                None None true None None _ fresh_wire eq_refl
                (or_introl eq_refl)) as (Hret & Hlog & _ & Hun).
  destruct (access_resource (fixed_backend 404) plain_request None None true
                            None None fresh_wire) as [[lg un] out].
  simpl in *. subst. reflexivity.
Defined.




(** * Further properties *)

(** ** match_up *)

(** Whatever its arguments, [match_up] either leaves the store as it is or
    returns normally having bound one key, not empty, in one mapping: an
    exception never leaves a write behind, no key is ever removed and no
    other object is touched. *)
Theorem match_up_one_binding (data_to data_from key_to key_from : val) (h : heap) :
  let out := match_up data_to data_from key_to key_from h in
  fst out = h \/
  (snd out = Ok tt /\
   exists l m k v, k <> "" /\ h !! l = Some (ODict m) /\
                   fst out = <[l := ODict (<[k := v]> m)]> h).
Proof.
  cbv zeta. rewrite match_up_unfold.
  destruct (get_member h data_to key_to true) as [[data key]|e]; [|left; reflexivity].
  destruct key as [k|]; [|left; reflexivity].
  unfold key_truthy. destruct (String.eqb_spec k ""); [left; reflexivity|].
  simpl negb. cbv iota.
  destruct (get_member h data_from key_from false) as [q|e]; [|left; reflexivity].
  unfold setitem. destruct data as [| | | |l]; try (left; reflexivity).
  destruct (h !! l) as [[m|xs]|] eqn:Hl; try (left; reflexivity).
  right. split; [reflexivity|]. exists l, m, k, (fst q). auto.
Qed.

Lemma lstrip_slashes n : lstrip slash (slashes n) = "".
Proof. induction n as [|n IH]; [reflexivity|exact IH]. Qed.

Lemma path_keys_slashes n : path_keys (slashes n) = [""].
Proof. unfold path_keys, strip. rewrite lstrip_slashes. reflexivity. Qed.

(** A target path that is null, empty or made of slashes only addresses
    nothing: [match_up] returns normally without a write, and without even
    resolving the source path. *)
Theorem match_up_no_target_path (data_to data_from key_from : val) (h : heap) :
  match_up data_to data_from VNone key_from h = (h, Ok tt) /\
  forall n, match_up data_to data_from (VStr (slashes n)) key_from h = (h, Ok tt).
Proof.
  split; [reflexivity|]. intros n. rewrite match_up_unfold.
  destruct n as [|n]; [reflexivity|].
  rewrite get_member_parent by discriminate.
  rewrite path_keys_slashes. reflexivity.
Qed.

Lemma path_keys_leading s : path_keys (String slash s) = path_keys s.
Proof. reflexivity. Qed.

Lemma rstrip_trailing c s : rstrip c (s ++ String c "")%string = rstrip c s.
Proof.
  induction s as [|a s IH]; simpl.
  - rewrite Ascii.eqb_refl. reflexivity.
  - rewrite IH. reflexivity.
Qed.

Lemma lstrip_trailing c s :
  (lstrip c s = "" /\ lstrip c (s ++ String c "")%string = "") \/
  (lstrip c s <> "" /\
   lstrip c (s ++ String c "")%string = (lstrip c s ++ String c "")%string).
Proof.
  induction s as [|a s IH]; simpl.
  - left. rewrite Ascii.eqb_refl. auto.
  - destruct (Ascii.eqb a c); [exact IH|]. right. split; [discriminate|reflexivity].
Qed.

Lemma path_keys_trailing s : path_keys (s ++ String slash "")%string = path_keys s.
Proof.
  unfold path_keys, strip.
  destruct (lstrip_trailing slash s) as [[-> ->]|[_ ->]]; [reflexivity|].
  rewrite rstrip_trailing. reflexivity.
Qed.

Lemma append_nonempty s t : s <> "" -> (s ++ t)%string <> "".
Proof. destruct s; [contradiction|discriminate]. Qed.

Lemma match_up_same_keys data_to data_from s s' t t' h :
  s <> "" -> s' <> "" -> t <> "" -> t' <> "" ->
  path_keys s' = path_keys s -> path_keys t' = path_keys t ->
  match_up data_to data_from (VStr s') (VStr t') h
  = match_up data_to data_from (VStr s) (VStr t) h.
Proof.
  intros Hs Hs' Ht Ht' Hks Hkt. rewrite !match_up_unfold.
  rewrite !get_member_parent, !get_member_value by assumption.
  rewrite Hks, Hkt. reflexivity.
Qed.

(** Slashes around a path do not count: with paths that are not empty,
    one more slash in front of them, or behind them, changes nothing in
    what [match_up] does. *)
Theorem match_up_slashes_around (data_to data_from : val) (s t : string) (h : heap) :
  s <> "" -> t <> "" ->
  match_up data_to data_from (VStr (String slash s)) (VStr (String slash t)) h
    = match_up data_to data_from (VStr s) (VStr t) h /\
  match_up data_to data_from (VStr (s ++ "/")%string) (VStr (t ++ "/")%string) h
    = match_up data_to data_from (VStr s) (VStr t) h.
Proof.
  intros Hs Ht. split.
  - apply match_up_same_keys; try assumption; try discriminate;
      apply path_keys_leading.
  - apply match_up_same_keys; try assumption;
      try (apply append_nonempty; assumption); apply path_keys_trailing.
Qed.

Lemma match_up_slashes_around_witness :
  match_up (VRef 0) (VRef 1) (VStr "/link") (VStr "/meta/href") link_store
    = match_up (VRef 0) (VRef 1) (VStr "link") (VStr "meta/href") link_store /\
  match_up (VRef 0) (VRef 1) (VStr "link/") (VStr "meta/href/") link_store
    = match_up (VRef 0) (VRef 1) (VStr "link") (VStr "meta/href") link_store.
Proof.
  apply (match_up_slashes_around (VRef 0) (VRef 1) "link" "meta/href" link_store);
    discriminate.
Defined.

Lemma truthy_non_mapping_truthy h x :
  truthy_non_mapping h x = true -> truthy h x = true.
Proof.
  destruct x as [| | | |l]; simpl; try tauto.
  destruct (h !! l) as [[m|xs]|]; try discriminate. tauto.
Qed.

Lemma truthy_non_mapping_get h x k :
  truthy_non_mapping h x = true -> dict_get h x k = Raise AttributeError.
Proof.
  destruct x as [| | | |l]; simpl; try reflexivity.
  destruct (h !! l) as [[m|xs]|]; try discriminate. reflexivity.
Qed.

Lemma descend_non_mapping h x seg post :
  truthy_non_mapping h x = true ->
  descend h x (seg :: post) = Raise AttributeError.
Proof.
  intros Hx. cbn [descend].
  rewrite (truthy_non_mapping_truthy _ _ Hx), (truthy_non_mapping_get _ _ _ Hx).
  reflexivity.
Qed.

(** A truthy value that is no mapping (a number, a string, a list) met on
    the target path before its last segment, or anywhere on the source
    path before its end, makes [match_up] raise [AttributeError]; nothing
    is written. *)
Theorem match_up_non_mapping_on_path
    (h : heap) (data_to data_from key_from : val) (s : string)
    (pre : list string) (seg : string) (post : list string) (x : val) :
  (path_keys s = pre ++ seg :: post -> post <> [] ->
   resolve h data_to pre = Some x -> truthy_non_mapping h x = true ->
   match_up data_to data_from (VStr s) key_from h = (h, Raise AttributeError))
  /\
  (forall t d,
     resolve h data_to (removelast (path_keys s)) = Some d ->
     List.last (path_keys s) "" <> "" ->
     key_from = VStr t -> t <> "" ->
     path_keys t = pre ++ seg :: post ->
     resolve h data_from pre = Some x -> truthy_non_mapping h x = true ->
     match_up data_to data_from (VStr s) key_from h = (h, Raise AttributeError)).
Proof.
  split.
  - intros Hkeys Hpost Hpre Hx.
    assert (Hs : s <> "").
    { intros ->. destruct pre as [|? [|? ?]]; destruct post; try discriminate;
        contradiction. }
    rewrite match_up_unfold, get_member_parent by assumption.
    rewrite Hkeys, removelast_middle by assumption.
    rewrite descend_app, (descend_resolve _ _ _ _ Hpre).
    cbv beta iota delta [res_bind].
    rewrite descend_non_mapping by assumption. reflexivity.
  - intros t d Hpar Hk -> Ht Hkeys Hpre Hx.
    rewrite match_up_unfold.
    rewrite get_member_parent by (apply path_keys_last_nonempty; assumption).
    rewrite (descend_resolve _ _ _ _ Hpar). cbv beta iota delta [res_bind].
    rewrite key_truthy_nonempty by assumption.
    rewrite get_member_value by assumption.
    rewrite Hkeys, descend_app, (descend_resolve _ _ _ _ Hpre).
    cbv beta iota delta [res_bind].
    rewrite descend_non_mapping by assumption. reflexivity.
Qed.

Lemma match_up_non_mapping_on_path_witness :
  match_up (VRef 2) (VRef 1) (VStr "/x/y/z") (VStr "/a") hollow_store
    = (hollow_store, Raise AttributeError) /\
  match_up (VRef 0) (VRef 2) (VStr "/a/c") (VStr "/x/y") hollow_store
    = (hollow_store, Raise AttributeError).
Proof.
  split.
  - apply (proj1 (match_up_non_mapping_on_path hollow_store (VRef 2) (VRef 1)
                    (VStr "/a") "/x/y/z" ["x"] "y" ["z"] (VInt 1)));
      try reflexivity. discriminate.
  - apply (proj2 (match_up_non_mapping_on_path hollow_store (VRef 0) (VRef 2)
                    (VStr "/x/y") "/a/c" ["x"] "y" [] (VInt 1))
             "/x/y" (VRef 1)); try reflexivity; discriminate.
Defined.

(** ** match_up_extra *)

(** In one formula: the target ends as the entries of the source whose
    names are not excluded, laid over what the target had.  No entry of
    the target is lost; those it shares with the copied part are
    overwritten. *)
Theorem match_up_extra_union
    (fuel : nat) (h : heap) (lt ls : loc) (mt ms : gmap string val)
    (excl : val) :
  h !! lt = Some (ODict mt) ->
  h !! ls = Some (ODict ms) ->
  is_collection h excl = true ->
  match_up_extra fuel (VRef lt) (VRef ls) excl h
  = (<[lt := ODict (filter (fun kv : string * val =>
                              excluded h (fst kv) excl = false) ms ∪ mt)]> h,
     Ok tt).
Proof.
  intros Hto Hfrom Hcoll.
  destruct (match_up_extra_run fuel h lt ls mt ms excl Hto Hfrom Hcoll)
    as (mt' & Hrun & Hcp & Hex & Hout).
  rewrite Hrun. do 3 f_equal. apply map_eq. intros k.
  destruct (ms !! k) as [v|] eqn:Hk.
  - destruct (excluded h k excl) eqn:Hx.
    + rewrite Hex by assumption. rewrite lookup_union_r; [reflexivity|].
      apply map_lookup_filter_None_2. right. intros x _. simpl. congruence.
    + rewrite (Hcp k v Hk Hx). symmetry. apply lookup_union_Some_l.
      apply map_lookup_filter_Some_2; assumption.
  - rewrite Hout by assumption. rewrite lookup_union_r; [reflexivity|].
    apply map_lookup_filter_None_2. left. assumption.
Qed.

Lemma match_up_extra_union_witness :
  match_up_extra 0 (VRef 0) (VRef 1) (VRef 2) merge_store
  = (<[0 := ODict (<["id" := VInt 7]> (<["name" := VStr "new"]>
                     {[ "tags" := VRef 3 ]}))]> merge_store, Ok tt).
Proof.
  rewrite (match_up_extra_union 0 merge_store 0 1
             (<["id" := VInt 7]> {[ "name" := VStr "old" ]})
             (<["id" := VInt 9]> (<["name" := VStr "new"]>
                {[ "tags" := VRef 3 ]}))
             (VRef 2) eq_refl eq_refl eq_refl).
  vm_compute. reflexivity.
Defined.

Lemma is_collection_insert h l o c :
  is_collection h c = true -> is_collection (<[l := o]> h) c = true.
Proof.
  destruct c as [| | | s | l']; simpl; try tauto.
  intros Hc. apply bool_decide_eq_true. apply bool_decide_eq_true in Hc.
  destruct (decide (l = l')) as [->|Hne].
  - rewrite lookup_insert_eq. eauto.
  - rewrite lookup_insert_ne by assumption. assumption.
Qed.

(** [match_up_extra] is idempotent: a second call with the same arguments
    returns normally and leaves the store as the first call left it, also
    when the target is the source or the collection of excluded names. *)
Theorem match_up_extra_idempotent
    (fuel : nat) (h : heap) (lt ls : loc) (mt ms : gmap string val)
    (excl : val) :
  h !! lt = Some (ODict mt) ->
  h !! ls = Some (ODict ms) ->
  is_collection h excl = true ->
  exists h',
    match_up_extra fuel (VRef lt) (VRef ls) excl h = (h', Ok tt) /\
    match_up_extra fuel (VRef lt) (VRef ls) excl h' = (h', Ok tt).
Proof.
  intros Hto Hfrom Hcoll.
  destruct (match_up_extra_run fuel h lt ls mt ms excl Hto Hfrom Hcoll)
    as (mt' & Hrun & Hcp & Hex & Hout).
  exists (<[lt := ODict mt']> h). split; [assumption|].
  set (h' := <[lt := ODict mt']> h).
  assert (Hto' : h' !! lt = Some (ODict mt')) by apply lookup_insert_eq.
  assert (Hcoll' : is_collection h' excl = true)
    by (apply is_collection_insert; assumption).
  destruct (decide (lt = ls)) as [<-|Hne].
  - (* the source is the target: the first call changed nothing *)
    assert (mt' = mt) as Heq.
    { rewrite Hto in Hfrom. injection Hfrom as <-.
      apply map_eq. intros k. destruct (mt !! k) as [v|] eqn:Hk.
      - destruct (excluded h k excl) eqn:Hx.
        + rewrite Hex by assumption. assumption.
        + apply (Hcp k v Hk Hx).
      - rewrite (Hout k Hk). assumption. }
    unfold h'. rewrite Heq, (insert_id h lt (ODict mt) Hto). rewrite Heq in Hrun.
    rewrite (insert_id h lt (ODict mt) Hto) in Hrun. assumption.
  - assert (Hfrom' : h' !! ls = Some (ODict ms))
      by (unfold h'; rewrite lookup_insert_ne by assumption; assumption).
    destruct (match_up_extra_run fuel h' lt ls mt' ms excl Hto' Hfrom' Hcoll')
      as (mt'' & Hrun' & Hcp' & Hex' & Hout').
    rewrite Hrun'. unfold h'. rewrite insert_insert_eq. do 3 f_equal.
    apply map_eq. intros k.
    destruct (ms !! k) as [v|] eqn:Hk; [|apply Hout'; assumption].
    destruct (excluded h' k excl) eqn:Hx'; [apply Hex'; assumption|].
    rewrite (Hcp' k v Hk Hx'). symmetry.
    destruct (excluded h k excl) eqn:Hx; [|apply (Hcp k v Hk Hx)].
    (* excluded at first and not afterwards: impossible *)
    exfalso. pose proof (Hex k Hx) as Hsame.
    destruct excl as [| | | s | l]; simpl in Hx, Hx'; try congruence.
    unfold h' in Hx'. destruct (decide (lt = l)) as [<-|Hl].
    + rewrite lookup_insert_eq in Hx'. rewrite Hto in Hx.
      apply bool_decide_eq_true in Hx. apply bool_decide_eq_false in Hx'.
      apply Hx'. rewrite elem_of_dom, Hsame. apply elem_of_dom. assumption.
    + rewrite lookup_insert_ne in Hx' by assumption. congruence.
Qed.

Lemma match_up_extra_idempotent_witness :
  exists h',
    match_up_extra 0 (VRef 0) (VRef 1) (VRef 2) merge_store = (h', Ok tt) /\
    match_up_extra 0 (VRef 0) (VRef 1) (VRef 2) h' = (h', Ok tt).
Proof.
  apply (match_up_extra_idempotent 0 merge_store 0 1
           (<["id" := VInt 7]> {[ "name" := VStr "old" ]})
           (<["id" := VInt 9]> (<["name" := VStr "new"]>
              {[ "tags" := VRef 3 ]}))
           (VRef 2)); reflexivity.
Defined.

(** A source with nothing in it (an empty dict, list or string) makes
    [match_up_extra] return at once: the target and the excluded names
    are not looked at, whatever they are. *)
Theorem match_up_extra_empty_source
    (fuel : nat) (h : heap) (data_to data_from keys_to_exclude : val) :
  empty_iterable h data_from = true ->
  match_up_extra fuel data_to data_from keys_to_exclude h = (h, Ok tt).
Proof.
  intros He. unfold match_up_extra, bind, read, py_iter.
  destruct data_from as [| | | s | l]; simpl in He; try discriminate.
  - apply String.eqb_eq in He as ->. reflexivity.
  - destruct (h !! l) as [[m|xs]|]; try discriminate;
      apply bool_decide_eq_true in He as ->; reflexivity.
Qed.

Lemma match_up_extra_empty_source_witness :
  match_up_extra 0 VNone (VRef 1) (VInt 3) hollow_store = (hollow_store, Ok tt).
Proof.
  apply (match_up_extra_empty_source 0 hollow_store VNone (VRef 1) (VInt 3)).
  reflexivity.
Defined.

Lemma setitem_not_assignable h d k v :
  not_assignable h d = true -> setitem d k v h = (h, Raise TypeError).
Proof.
  unfold setitem. destruct d as [| | | |l]; simpl; try reflexivity.
  destruct (h !! l) as [[m|xs]|]; try discriminate. reflexivity.
Qed.

(** A target that is no mapping (a scalar or a list) gets nothing: as soon
    as the source has a name that is not excluded, [match_up_extra] raises
    [TypeError] and the store is as it was; with every name excluded it
    returns normally. *)
Theorem match_up_extra_bad_target
    (fuel : nat) (h : heap) (data_to : val) (ls : loc)
    (ms : gmap string val) (excl : val) :
  not_assignable h data_to = true ->
  h !! ls = Some (ODict ms) ->
  is_collection h excl = true ->
  match_up_extra fuel data_to (VRef ls) excl h =
  (h, if existsb (fun k => negb (excluded h k excl)) (elements (dom ms))
      then Raise TypeError else Ok tt).
Proof.
  intros Hbad Hfrom Hcoll. unfold match_up_extra, bind, read, py_iter.
  rewrite Hfrom.
  induction (elements (dom ms)) as [|k K IH]; [reflexivity|].
  rewrite fmap_cons, for_each_cons. unfold copy_unless_excluded at 1.
  unfold bind, read. rewrite py_in_str by assumption.
  simpl existsb. destruct (excluded h k excl); simpl.
  - exact IH.
  - unfold dict_get. rewrite Hfrom.
    rewrite setitem_not_assignable by assumption. reflexivity.
Qed.

Lemma match_up_extra_bad_target_witness :
  match_up_extra 0 (VRef 3) (VRef 1) (VRef 2) merge_store
  = (merge_store, Raise TypeError).
Proof.
  rewrite (match_up_extra_bad_target 0 merge_store (VRef 3) 1
             (<["id" := VInt 9]> (<["name" := VStr "new"]>
                {[ "tags" := VRef 3 ]}))
             (VRef 2) eq_refl eq_refl eq_refl).
  vm_compute. reflexivity.
Defined.

(** ** remove_member *)

Lemma for_each_preserves {S A} (R : S -> S -> Prop) (l : list A)
    (body : A -> ST S unit) :
  (forall s, R s s) ->
  (forall s1 s2 s3, R s1 s2 -> R s2 s3 -> R s1 s3) ->
  (forall x s, R s (fst (body x s))) ->
  forall s, R s (fst (for_each l body s)).
Proof.
  intros Hrefl Htrans Hbody. induction l as [|x l IH]; intros s; [apply Hrefl|].
  rewrite for_each_cons. pose proof (Hbody x s) as Hx.
  destruct (body x s) as [s' [u|e]]; simpl in Hx; [|exact Hx].
  eapply Htrans; [exact Hx|apply IH].
Qed.

(** Whatever the value, the store and the outcome, also when the recursion
    limit is hit half way, all that [remove_member] has done is to take
    [member] out of mappings: every other key keeps its value, no list
    changes, no object appears or disappears. *)
Theorem remove_member_only_strips
    (fuel : nat) (data : val) (member : string) (h : heap) :
  stripped_of member h (fst (remove_member fuel data member h)).
Proof.
  revert data h. induction fuel as [|f IH]; intros data h;
    [apply stripped_refl|].
  destruct data as [| | | |l]; try apply stripped_refl.
  destruct (h !! l) as [[m|xs]|] eqn:Hl.
  - rewrite (remove_member_dict _ _ _ _ _ Hl). unfold bind at 1.
    destruct (pop_member_run member l m h Hl) as (h1 & -> & Hs1 & _).
    eapply stripped_trans; [exact Hs1|].
    apply for_each_preserves;
      [apply stripped_refl|apply stripped_trans|].
    intros key s. unfold bind, read.
    destruct (dict_get s (VRef l) key); [apply IH|apply stripped_refl].
  - rewrite (remove_member_list _ _ _ _ _ Hl).
    apply for_each_preserves;
      [apply stripped_refl|apply stripped_trans|]. intros x s. apply IH.
  - cbn [remove_member]. rewrite Hl. apply stripped_refl.
Qed.

(** A mapping that holds itself under a key other than [member] is a
    document with a cycle: on it [remove_member] never returns normally,
    whatever the recursion limit. *)
Theorem remove_member_self_reference
    (fuel : nat) (h : heap) (l : loc) (m : gmap string val)
    (k member : string) :
  h !! l = Some (ODict m) ->
  m !! k = Some (VRef l) ->
  k <> member ->
  exists e, snd (remove_member fuel (VRef l) member h) = Raise e.
Proof.
  intros Hl Hk Hne. revert h m Hl Hk.
  induction fuel as [|f IH]; intros h m Hl Hk; [eexists; reflexivity|].
  rewrite (remove_member_dict _ _ _ _ _ Hl). unfold bind at 1.
  destruct (pop_member_run member l m h Hl) as (h1 & -> & _ & Hl1).
  set (md := delete member m) in *.
  assert (Hkd : md !! k = Some (VRef l))
    by (unfold md; rewrite lookup_delete_ne by congruence; assumption).
  assert (Hmd : md !! member = None) by apply lookup_delete_eq.
  assert (Hin : k ∈ elements (dom md))
    by (apply elem_of_elements, elem_of_dom; eauto).
  revert h1 Hl1 Hin. generalize (elements (dom md)) as K.
  induction K as [|k0 K IHK]; intros h1 Hl1 Hin;
    [exfalso; revert Hin; apply not_elem_of_nil|].
  rewrite for_each_cons. unfold bind at 1, read at 1, dict_get at 1.
  rewrite Hl1.
  pose proof (remove_member_only_strips f (default VNone (md !! k0)) member h1)
    as Hs.
  destruct (remove_member f (default VNone (md !! k0)) member h1)
    as [h2 [u|e]] eqn:Hrun; [|eexists; reflexivity].
  simpl in Hs. apply elem_of_cons in Hin as [<-|Hin].
  - rewrite Hkd in Hrun. simpl in Hrun.
    destruct (IH h1 md Hl1 Hkd) as [e He]. rewrite Hrun in He. discriminate.
  - apply IHK; [|assumption].
    eapply stripped_keeps_dict; eassumption.
Qed.

Lemma remove_member_self_reference_witness :
  exists e, snd (remove_member 1000 (VRef 0) "n" loop_store) = Raise e.
Proof.
  apply (remove_member_self_reference 1000 loop_store 0
           (<["n" := VInt 1]> {[ "self" := VRef 0 ]}) "self" "n").
  - reflexivity.
  - reflexivity.
  - discriminate.
Defined.

(** What lies under the removed key is dropped without being visited: it
    may be anything, the document itself included.  All the call needs is
    that the other values of the mapping are documents. *)
Theorem remove_member_drops_unvisited
    (n fuel : nat) (h : heap) (l : loc) (m : gmap string val)
    (member : string) :
  (S n < fuel)%nat ->
  h !! l = Some (ODict m) ->
  (forall k v, k <> member -> m !! k = Some v -> doc n h v = true) ->
  exists h',
    remove_member fuel (VRef l) member h = (h', Ok tt) /\
    h' !! l = Some (ODict (delete member m)) /\
    clean member h' (VRef l).
Proof.
  intros Hn Hl Hdoc.
  destruct fuel as [|[|f]]; try lia.
  rewrite (remove_member_dict _ _ _ _ _ Hl). unfold bind at 1.
  destruct (pop_member_run member l m h Hl) as (h1 & -> & Hs1 & Hl1).
  destruct (remove_member_dict_loop member n (S f)
              (remove_member_run member n f ltac:(lia))
              l (delete member m) (lookup_delete_eq m member)
              (elements (dom (delete member m))) h1 Hl1)
    as (hf & Hloop & Hsf & Hcf).
  { intros k v Hk. apply lookup_delete_Some in Hk as [Hne Hk].
    eapply doc_stripped; [eassumption|]. eapply Hdoc; eauto. }
  assert (Hlf : hf !! l = Some (ODict (delete member m))).
  { eapply stripped_keeps_dict; [eassumption|assumption|].
    apply lookup_delete_eq. }
  exists hf. split; [assumption|]. split; [assumption|].
  intros l' m' Hr Hl'. inversion Hr as [l0|l0 v l0' He Hr']; subst.
  - rewrite Hlf in Hl'. injection Hl' as <-. apply lookup_delete_eq.
  - destruct He as [l0 m0 k v Hl0 Hk|l0 xs v Hl0 Hx];
      rewrite Hlf in Hl0; [|discriminate].
    injection Hl0 as <-.
    eapply (Hcf k v); try eassumption.
    apply elem_of_elements, elem_of_dom. eauto.
Qed.

Lemma remove_member_drops_unvisited_witness :
  exists h',
    remove_member 2 (VRef 0) "self" loop_store = (h', Ok tt) /\
    h' !! 0 = Some (ODict {[ "n" := VInt 1 ]}) /\
    clean "self" h' (VRef 0).
Proof.
  destruct (remove_member_drops_unvisited 0 2 loop_store 0
              (<["n" := VInt 1]> {[ "self" := VRef 0 ]}) "self")
    as (h' & Hrun & Hcell & Hclean).
  - lia.
  - reflexivity.
  - intros k v Hne Hk.
    apply lookup_insert_Some in Hk as [[<- <-]|[_ Hk]]; [reflexivity|].
    apply lookup_singleton_Some in Hk as [<- _]. contradiction.
  - exists h'. split; [assumption|]. split; [|assumption].
    refine (eq_trans Hcell _). vm_compute. reflexivity.
Defined.

(** ** has_extra *)

Lemma any_ok_false {A} (f : A -> res bool) (l : list A) :
  any_ok f l = Ok false -> forall x, x ∈ l -> f x = Ok false.
Proof.
  induction l as [|y l IH]; intros Hrun x Hx;
    [exfalso; revert Hx; apply not_elem_of_nil|].
  simpl in Hrun. destruct (f y) as [[|]|] eqn:Hy; simpl in Hrun;
    try discriminate.
  apply elem_of_cons in Hx as [->|Hx]; [assumption|apply IH; assumption].
Qed.

Lemma has_extra_false_key
    (fuel : nat) (h : heap) (ls : loc) (ms : gmap string val)
    (excl : val) (k : string) :
  has_extra fuel h (VRef ls) excl = Ok false ->
  h !! ls = Some (ODict ms) ->
  is_Some (ms !! k) ->
  exists le me, excl = VRef le /\ h !! le = Some (ODict me) /\
                is_Some (me !! k).
Proof.
  intros Hrun Hs Hk. destruct fuel as [|f]; [discriminate|].
  cbn [has_extra] in Hrun. unfold py_iter in Hrun. rewrite Hs in Hrun.
  cbv beta iota delta [res_bind] in Hrun.
  pose proof (any_ok_false _ _ Hrun (VStr k)) as Hstep.
  assert (Hin : VStr k ∈ VStr <$> elements (dom ms)).
  { apply list_elem_of_fmap. exists k. split; [reflexivity|].
    apply elem_of_elements, elem_of_dom. assumption. }
  specialize (Hstep Hin). unfold dict_keys in Hstep.
  destruct excl as [| | | |le]; try discriminate.
  destruct (h !! le) as [[me|xs]|] eqn:He; try discriminate.
  cbv beta iota delta [res_bind] in Hstep. unfold key_in_keys in Hstep.
  case_bool_decide as Hdom; [|discriminate].
  exists le, me. split; [reflexivity|]. split; [exact He|].
  apply elem_of_dom, elem_of_elements. assumption.
Qed.

(** For [has_extra] to answer false on a mapping that is not empty,
    whatever the shape of the rest, the exclusion set must be a mapping
    that has every top-level name of the source: a single name it lacks
    rules the answer false out.  (On the empty mapping the answer is false
    with any exclusion set.) *)
Theorem has_extra_false_needs_names
    (fuel : nat) (h : heap) (ls : loc) (ms : gmap string val) (excl : val) :
  has_extra fuel h (VRef ls) excl = Ok false ->
  h !! ls = Some (ODict ms) ->
  ms = ∅ \/
  exists le me, excl = VRef le /\ h !! le = Some (ODict me) /\
                dom ms ⊆ dom me.
Proof.
  intros Hrun Hs.
  destruct (decide (ms = ∅)) as [Hempty|Hne]; [left; exact Hempty|right].
  destruct (map_choose ms Hne) as (k & v & Hk).
  destruct (has_extra_false_key fuel h ls ms excl k Hrun Hs (mk_is_Some _ _ Hk))
    as (le & me & He & Hle & _).
  exists le, me. split; [exact He|]. split; [exact Hle|].
  intros k' Hk'. apply elem_of_dom in Hk'.
  destruct (has_extra_false_key fuel h ls ms excl k' Hrun Hs Hk')
    as (le' & me' & He' & Hle' & Hin).
  rewrite He in He'. injection He' as <-.
  rewrite Hle in Hle'. injection Hle' as <-.
  apply elem_of_dom. exact Hin.
Qed.

Lemma has_extra_false_needs_names_witness :
  (<["a" := VInt 1]> {[ "b" := VRef 1 ]} : gmap string val) = ∅ \/
  exists le me, VRef 3 = VRef le /\ extra_store !! le = Some (ODict me) /\
                dom (<["a" := VInt 1]> {[ "b" := VRef 1 ]} : gmap string val)
                  ⊆ dom me.
Proof.
  apply (has_extra_false_needs_names 2 extra_store 0
           (<["a" := VInt 1]> {[ "b" := VRef 1 ]}) (VRef 3)).
  - vm_compute. reflexivity.
  - reflexivity.
Defined.

(** A source with nothing in it has no extra attribute: [has_extra]
    answers false without looking at the exclusion set, whatever it is. *)
Theorem has_extra_empty_source
    (fuel : nat) (h : heap) (source excl : val) :
  (0 < fuel)%nat ->
  empty_iterable h source = true ->
  has_extra fuel h source excl = Ok false.
Proof.
  intros Hf He. destruct fuel as [|f]; [lia|].
  cbn [has_extra]. unfold py_iter.
  destruct source as [| | | s | l]; simpl in He; try discriminate.
  - apply String.eqb_eq in He as ->. reflexivity.
  - destruct (h !! l) as [[m|xs]|]; try discriminate;
      apply bool_decide_eq_true in He as ->; reflexivity.
Qed.

Lemma has_extra_empty_source_witness :
  has_extra 1 nest_store (VRef 3) VNone = Ok false.
Proof.
  apply (has_extra_empty_source 1 nest_store (VRef 3) VNone); [lia|reflexivity].
Defined.

(** On a mapping that has attributes, an exclusion set that is no mapping
    (a scalar or a list) makes [has_extra] raise [AttributeError]. *)
Theorem has_extra_bad_exclusion_set
    (fuel : nat) (h : heap) (ls : loc) (ms : gmap string val) (excl : val) :
  (0 < fuel)%nat ->
  h !! ls = Some (ODict ms) -> ms <> ∅ ->
  not_assignable h excl = true ->
  has_extra fuel h (VRef ls) excl = Raise AttributeError.
Proof.
  intros Hf Hs Hne Hbad. destruct fuel as [|f]; [lia|].
  cbn [has_extra]. unfold py_iter. rewrite Hs.
  cbv beta iota delta [res_bind].
  destruct (elements (dom ms)) as [|k K] eqn:HK.
  - exfalso. apply Hne. apply dom_empty_iff_L.
    apply elements_empty_iff in HK. apply leibniz_equiv. assumption.
  - rewrite fmap_cons. cbn [any_ok].
    assert (dict_keys h excl = Raise AttributeError) as ->; [|reflexivity].
    unfold dict_keys. destruct excl as [| | | |le]; try reflexivity.
    simpl in Hbad. destruct (h !! le) as [[me|xs]|]; try discriminate.
    reflexivity.
Qed.

Lemma has_extra_bad_exclusion_set_witness :
  has_extra 1 nest_store (VRef 0) (VStr "a") = Raise AttributeError.
Proof.
  apply (has_extra_bad_exclusion_set 1 nest_store 0 {[ "a" := VRef 1 ]}
           (VStr "a")); [lia|reflexivity| |reflexivity].
  intros H. apply (f_equal (fun m : gmap string val => m !! "a")) in H.
  vm_compute in H. discriminate.
Defined.

(** ** get_href *)

(** [get_href(data, member)] finds what the path [member/href] strictly
    resolves to: it returns a value other than [None] exactly when [data]
    is a mapping with [member], a mapping with [href], bound to that
    value. *)
Theorem get_href_resolves (h : heap) (data : val) (m : string) (x : val) :
  x <> VNone ->
  (get_href h data (VStr m) = Ok x <-> resolve h data [m; "href"] = Some x).
Proof.
  intros Hx. unfold get_href, get_v, dict_get. cbn [resolve]. split.
  - destruct (truthy h data); [|intros [=]; congruence].
    destruct data as [| | | |l]; try discriminate.
    destruct (h !! l) as [[md|xs]|]; try discriminate.
    cbv beta iota delta [res_bind].
    destruct (md !! m) as [v|]; simpl; [|intros [=]; congruence].
    destruct (truthy h v); [|intros [=]; congruence].
    destruct v as [| | | |l']; try discriminate.
    destruct (h !! l') as [[mv|ys]|]; try discriminate.
    destruct (mv !! "href") as [y|]; simpl; intros [=]; congruence.
  - destruct data as [| | | |l]; try discriminate.
    destruct (h !! l) as [[md|xs]|] eqn:Hl; try discriminate.
    destruct (md !! m) as [v|] eqn:Hm; try discriminate.
    destruct v as [| | | |l']; try discriminate.
    destruct (h !! l') as [[mv|ys]|] eqn:Hl'; try discriminate.
    destruct (mv !! "href") as [y|] eqn:Hy; try discriminate.
    intros [= ->].
    rewrite (truthy_dict_lookup h l md m (VRef l') Hl Hm).
    cbv beta iota delta [res_bind]. simpl default.
    rewrite (truthy_dict_lookup h l' mv "href" x Hl' Hy).
    rewrite Hl', Hy. reflexivity.
Qed.

Lemma get_href_resolves_witness :
  get_href ref_store (VRef 0) (VStr "link") = Ok (VStr "/x/1") <->
  resolve ref_store (VRef 0) ["link"; "href"] = Some (VStr "/x/1").
Proof.
  apply (get_href_resolves ref_store (VRef 0) "link" (VStr "/x/1")).
  discriminate.
Defined.

(** [get_href] is safe on what is missing: it returns [None], and does not
    raise, when [data] is falsy ([None], an empty mapping), and when
    [data] is a mapping in which [member] is absent or bound to a falsy
    value. *)
Theorem get_href_none (h : heap) (data : val) (m : string) :
  truthy h data = false \/
  (exists l md, data = VRef l /\ h !! l = Some (ODict md) /\
                truthy h (default VNone (md !! m)) = false) ->
  get_href h data (VStr m) = Ok VNone.
Proof.
  unfold get_href. intros [Hd|(l & md & -> & Hl & Hv)].
  - rewrite Hd. reflexivity.
  - destruct (truthy h (VRef l)); [|reflexivity].
    unfold get_v, dict_get. rewrite Hl. cbv beta iota delta [res_bind].
    rewrite Hv. reflexivity.
Qed.

Lemma get_href_none_witness :
  get_href ref_store (VRef 0) (VStr "gone") = Ok VNone /\
  get_href ref_store (VRef 0) (VStr "nope") = Ok VNone.
Proof.
  split.
  - apply (get_href_none ref_store (VRef 0) "gone"). right.
    exists 0, (<["link" := VRef 1]> (<["name" := VStr "n"]>
                 {[ "gone" := VNone ]})).
    repeat split.
  - apply (get_href_none ref_store (VRef 0) "nope"). right.
    exists 0, (<["link" := VRef 1]> (<["name" := VStr "n"]>
                 {[ "gone" := VNone ]})).
    repeat split.
Defined.

(** ... and unsafe on what has the wrong shape: a [data] that is truthy and
    no mapping, or a [member] bound to a truthy value that is no mapping
    (a plain string, say), makes it raise [AttributeError]. *)
Theorem get_href_wrong_shape (h : heap) (data : val) (m : string) :
  truthy_non_mapping h data = true \/
  (exists l md v, data = VRef l /\ h !! l = Some (ODict md) /\
                  md !! m = Some v /\ truthy_non_mapping h v = true) ->
  get_href h data (VStr m) = Raise AttributeError.
Proof.
  unfold get_href. intros [Hd|(l & md & v & -> & Hl & Hm & Hv)].
  - rewrite (truthy_non_mapping_truthy _ _ Hd). unfold get_v.
    rewrite (truthy_non_mapping_get _ _ _ Hd). reflexivity.
  - rewrite (truthy_dict_lookup h l md m v Hl Hm).
    unfold get_v. unfold dict_get at 1 2. rewrite Hl, Hm.
    cbv beta iota delta [res_bind]. simpl default.
    rewrite (truthy_non_mapping_truthy _ _ Hv).
    apply truthy_non_mapping_get. assumption.
Qed.

Lemma get_href_wrong_shape_witness :
  get_href ref_store (VRef 0) (VStr "name") = Raise AttributeError.
Proof.
  apply (get_href_wrong_shape ref_store (VRef 0) "name"). right.
  exists 0, (<["link" := VRef 1]> (<["name" := VStr "n"]>
               {[ "gone" := VNone ]})), (VStr "n").
  repeat split.
Defined.

(** ** get_last_part, concat and sub_path *)

Lemma split_app c s t :
  split c (s ++ String c t)%string = split c s ++ split c t.
Proof.
  induction s as [|a s IH]; simpl.
  - rewrite Ascii.eqb_refl. reflexivity.
  - rewrite IH. destruct (Ascii.eqb a c); [reflexivity|].
    pose proof (split_nonempty c s) as Hn.
    destruct (split c s) as [|x xs]; [contradiction|reflexivity].
Qed.

Lemma last_app_nonempty {A} (l1 l2 : list A) (d : A) :
  l2 <> [] -> List.last (l1 ++ l2) d = List.last l2 d.
Proof.
  intros Hn. induction l1 as [|x l1 IH]; [reflexivity|].
  simpl. destruct (l1 ++ l2) eqn:E; [|exact IH].
  apply app_eq_nil in E as [_ ->]. contradiction.
Qed.

Lemma split_no_sep c s : has_char c s = false -> split c s = [s].
Proof.
  induction s as [|a s IH]; simpl; [reflexivity|].
  destruct (Ascii.eqb a c); [discriminate|]. simpl. intros Hs.
  rewrite (IH Hs). reflexivity.
Qed.

Lemma split_segments_no_sep c s :
  forall x, x ∈ split c s -> has_char c x = false.
Proof.
  induction s as [|a s IH]; simpl; intros x Hx.
  - apply list_elem_of_singleton in Hx as ->. reflexivity.
  - destruct (Ascii.eqb a c) eqn:Hac.
    + apply elem_of_cons in Hx as [->|Hx]; [reflexivity|apply IH; assumption].
    + pose proof (split_nonempty c s) as Hn.
      destruct (split c s) as [|y ys]; [contradiction|].
      apply elem_of_cons in Hx as [->|Hx].
      * simpl. rewrite Hac. apply IH. left.
      * apply IH. right. assumption.
Qed.

Lemma last_elem {A} (l : list A) (d : A) : l <> [] -> List.last l d ∈ l.
Proof.
  induction l as [|x l IH]; [contradiction|]. intros _.
  destruct l as [|y l]; [left|]. right. apply IH. discriminate.
Qed.

(** The result of [get_last_part] never has a slash in it. *)
Theorem get_last_part_no_slash (path : option string) :
  has_char slash (get_last_part path) = false.
Proof.
  unfold get_last_part. destruct (str_falsy path); [reflexivity|].
  apply (split_segments_no_sep slash
           (rstrip_any [slash; " "%char] (default "" path))).
  apply last_elem, split_nonempty.
Qed.

Lemma rstrip_any_trailing cs c s :
  existsb (Ascii.eqb c) cs = true ->
  rstrip_any cs (s ++ String c "")%string = rstrip_any cs s.
Proof.
  intros Hc. induction s as [|a s IH]; simpl.
  - rewrite Hc. reflexivity.
  - rewrite IH. reflexivity.
Qed.

Lemma str_falsy_app s c : str_falsy (Some (s ++ String c "")%string) = false.
Proof. destruct s; reflexivity. Qed.

Lemma get_last_part_trailing c p :
  existsb (Ascii.eqb c) [slash; " "%char] = true ->
  get_last_part (Some (p ++ String c "")%string) = get_last_part (Some p).
Proof.
  intros Hc. unfold get_last_part. rewrite str_falsy_app.
  simpl default. rewrite (rstrip_any_trailing _ c p Hc).
  destruct p as [|a p]; reflexivity.
Qed.

(** Slashes and blanks at the end of a path do not count: one more of
    either gives the same last part. *)
Theorem get_last_part_trailing_ignored (p : string) :
  get_last_part (Some (p ++ "/")%string) = get_last_part (Some p) /\
  get_last_part (Some (p ++ " ")%string) = get_last_part (Some p).
Proof. split; apply get_last_part_trailing; reflexivity. Qed.

Lemma last_char_app s t : t <> "" -> last_char (s ++ t)%string = last_char t.
Proof.
  intros Ht. induction s as [|a s IH]; [reflexivity|].
  simpl. rewrite IH. destruct (s ++ t)%string eqn:E; [|reflexivity].
  destruct s; simpl in E; [contradiction|discriminate].
Qed.

Lemma last_char_none s : last_char s = None -> s = "".
Proof.
  induction s as [|a s IH]; [reflexivity|]. simpl.
  destruct s as [|b s]; [discriminate|]. intros H. discriminate (IH H).
Qed.

Lemma rstrip_any_keeps cs s a :
  last_char s = Some a -> existsb (Ascii.eqb a) cs = false ->
  rstrip_any cs s = s.
Proof.
  intros Hl Ha. induction s as [|b s IH]; [discriminate|].
  simpl. destruct s as [|b' s].
  - simpl in Hl. injection Hl as ->. simpl. rewrite Ha. reflexivity.
  - rewrite IH by exact Hl. reflexivity.
Qed.

Lemma append_empty_r s : (s ++ "")%string = s.
Proof.
  induction s as [|a s IH]; [reflexivity|].
  change (String a (s ++ "")%string = String a s). f_equal. exact IH.
Qed.

(** Building a path from a base, a slash and an identifier and taking its
    last part gives the identifier back, provided the identifier is not
    empty, has no slash and does not end in a blank. *)
Theorem get_last_part_of_concat (base id : string) :
  id <> "" -> has_char slash id = false -> last_char id <> Some " "%char ->
  get_last_part (Some (concat [base; "/"; id])) = id.
Proof.
  intros Hid Hslash Hblank.
  unfold concat. cbn [fold_right]. rewrite append_empty_r.
  change ("/" ++ id)%string with (String slash id).
  assert (Hp : (base ++ String slash id)%string <> "")
    by (destruct base; discriminate).
  unfold get_last_part, str_falsy.
  destruct (String.eqb_spec (base ++ String slash id) ""); [contradiction|].
  change (default "" (Some (base ++ String slash id)%string))
    with (base ++ String slash id)%string.
  destruct (last_char id) as [a|] eqn:Hlast;
    [|apply last_char_none in Hlast; contradiction].
  assert (Ha : existsb (Ascii.eqb a) [slash; " "%char] = false).
  { simpl. destruct (Ascii.eqb_spec a slash) as [->|_].
    - exfalso. clear -Hslash Hlast. induction id as [|b id IH]; [discriminate|].
      simpl in Hslash. apply orb_false_elim in Hslash as [Hb Hid].
      destruct id as [|b' id]; [|exact (IH Hid Hlast)].
      simpl in Hlast. injection Hlast as ->.
      rewrite Ascii.eqb_refl in Hb. discriminate.
    - destruct (Ascii.eqb_spec a " "%char) as [->|_]; [contradiction|reflexivity]. }
  rewrite (rstrip_any_keeps _ (base ++ String slash id)%string a).
  - rewrite split_app, last_app_nonempty by apply split_nonempty.
    rewrite (split_no_sep _ _ Hslash). reflexivity.
  - change (String slash id) with ("/" ++ id)%string.
    rewrite last_char_app; [|destruct id; [contradiction|discriminate]].
    rewrite <- Hlast. apply (last_char_app "/"). assumption.
  - assumption.
Qed.

Lemma get_last_part_of_concat_witness :
  get_last_part (Some (concat ["/cimiv1/machines"; "/"; "7f3a"])) = "7f3a".
Proof.
  apply (get_last_part_of_concat "/cimiv1/machines" "7f3a");
    [discriminate|reflexivity|discriminate].
Defined.

Lemma replace_first_absent k v s :
  contains k s = false -> replace_first k v s = s.
Proof.
  induction s as [|a s IH]; [reflexivity|].
  cbn [contains replace_first]. intros Hc.
  apply orb_false_elim in Hc as [Hp Hs]. rewrite Hp, (IH Hs). reflexivity.
Qed.

(** When no key of the dict occurs in the path, [sub_path] returns the
    path as it is, in whatever order the dict gives its items. *)
Theorem sub_path_no_occurrence (path : string) (map : gmap string string) :
  (forall k v, map !! k = Some v -> contains k path = false) ->
  sub_path path map = path.
Proof.
  intros Hno. unfold sub_path.
  assert (Hall : forall kv, kv ∈ map_to_list map -> contains (fst kv) path = false).
  { intros [k v] Hkv. apply elem_of_map_to_list in Hkv. eapply Hno. eassumption. }
  induction (map_to_list map) as [|kv l IH]; [reflexivity|].
  simpl. rewrite replace_first_absent by (apply Hall; left).
  apply IH. intros kv' Hkv'. apply Hall. right. assumption.
Qed.

Lemma sub_path_no_occurrence_witness :
  sub_path "/machines/7"
           (<["<id>" := "9"]> {[ "<name>" := "n" ]}) = "/machines/7".
Proof.
  apply (sub_path_no_occurrence "/machines/7").
  intros k v Hk.
  apply lookup_insert_Some in Hk as [[<- _]|[_ Hk]]; [reflexivity|].
  apply lookup_singleton_Some in Hk as [<- _]. reflexivity.
Defined.

Lemma prefix_append k b : String.prefix k (k ++ b)%string = true.
Proof.
  induction k as [|a k IH]; [destruct b; reflexivity|].
  change (String a k ++ b)%string with (String a (k ++ b)%string).
  simpl. destruct (ascii_dec a a); [exact IH|contradiction].
Qed.

Lemma drop_str_append k b : drop_str (String.length k) (k ++ b)%string = b.
Proof.
  induction k as [|a k IH]; [destruct b; reflexivity|].
  change (String a k ++ b)%string with (String a (k ++ b)%string).
  simpl. exact IH.
Qed.

Lemma replace_first_at c k' v a b :
  has_char c a = false ->
  replace_first (String c k') v (a ++ String c k' ++ b)%string
  = (a ++ v ++ b)%string.
Proof.
  intros Ha. induction a as [|x a IH].
  - change ("" ++ String c k' ++ b)%string with (String c k' ++ b)%string.
    change (String c k' ++ b)%string with (String c (k' ++ b)%string) at 1.
    cbn [replace_first].
    change (String c (k' ++ b)%string) with (String c k' ++ b)%string.
    rewrite prefix_append, drop_str_append. reflexivity.
  - simpl in Ha. apply orb_false_elim in Ha as [Hx Ha].
    change (String x a ++ String c k' ++ b)%string
      with (String x (a ++ String c k' ++ b)%string).
    cbn [replace_first]. simpl String.prefix.
    destruct (ascii_dec c x) as [->|_];
      [rewrite Ascii.eqb_refl in Hx; discriminate|].
    rewrite (IH Ha). reflexivity.
Qed.

(** Filling a template: with a single item [{k: v}], a key [k] that is not
    empty, and a path that holds [k] after a part in which the first
    character of [k] does not occur, [sub_path] puts [v] in the place of
    that occurrence and keeps the rest. *)
Theorem sub_path_fills_template (c : ascii) (k' v a b : string) :
  has_char c a = false ->
  sub_path (a ++ String c k' ++ b)%string {[ String c k' := v ]}
  = (a ++ v ++ b)%string.
Proof.
  intros Ha. unfold sub_path. rewrite map_to_list_singleton.
  simpl fold_left. apply replace_first_at. assumption.
Qed.

Lemma sub_path_fills_template_witness :
  sub_path "/machines/<id>/disks" {[ "<id>" := "7" ]} = "/machines/7/disks".
Proof.
  apply (sub_path_fills_template "<"%char "id>" "7" "/machines/" "/disks").
  reflexivity.
Defined.

(** ** The error table and the state tables *)

Ltac table_cases H :=
  repeat (apply elem_of_cons in H as [H|H]; [simplify_eq|]);
  try (exfalso; revert H; apply not_elem_of_nil).

(** [get_err_response] knows the seven kinds of the table and no other
    code (any other is a [KeyError]).  Each response has a body that is
    not empty; [TestRequest] alone has the status 200, every other kind a
    client or server error status. *)
Theorem get_err_response_kinds (code : string) :
  (is_Some (get_err_response code) <->
   code ∈ ["AccessDenied"; "BadRequest"; "MalformedBody"; "NotFound";
           "NotImplemented"; "TestRequest"; "Conflict"]) /\
  (forall r, get_err_response code = Some r ->
     err_body r <> "" /\
     (err_status r = 200%Z <-> code = "TestRequest") /\
     (code <> "TestRequest" -> (400 <= err_status r < 600)%Z)).
Proof.
  unfold get_err_response.
  destruct (error_table !! code) as [entry|] eqn:E.
  - unfold error_table in E. apply elem_of_list_to_map_2 in E.
    destruct entry as [st body]. split.
    + split; [intros _|eauto].
      table_cases E; apply list_elem_of_In; simpl; tauto.
    + intros r [= <-]. simpl.
      table_cases E; (split; [discriminate|]);
        (split; [split; intros; try reflexivity; try discriminate; try lia
                |intros; try contradiction; lia]).
  - split; [|discriminate]. split; [intros [? ?]; discriminate|].
    intros Hin. exfalso. unfold error_table in E.
    apply not_elem_of_list_to_map in E. apply E.
    apply list_elem_of_In in Hin. simpl in Hin.
    apply list_elem_of_In. simpl.
    repeat (destruct Hin as [<-|Hin]; [tauto|]). contradiction.
Qed.

(** Each state lookup answers within the normalized vocabulary of its
    kind, whatever the backend state is: a machine, volume or image state
    returned is never a backend name outside it. *)
Theorem state_maps_normalized (value : string) :
  map_machine_state value ∈
    ["STARTED"; "STARTING"; "STOPPED"; "PAUSED"; "SUSPENDED"; "ERROR";
     "DELETING"; "UNKNOWN"] /\
  map_volume_state value ∈
    ["CREATING"; "AVAILABLE"; "DELETING"; "ATTACHING"; "DETACHING"; "INUSE";
     "ERROR"; "UNKNOWN"] /\
  map_image_state value ∈
    ["CREATING"; "AVAILABLE"; "DELETED"; "DELETING"; "UNKNOWN"].
Proof.
  unfold map_machine_state, map_volume_state, map_image_state.
  split; [|split].
  - destruct (MACHINE_STATE_MAP !! value) as [x|] eqn:E;
      [|apply list_elem_of_In; simpl; tauto].
    unfold MACHINE_STATE_MAP in E. apply elem_of_list_to_map_2 in E.
    table_cases E; apply list_elem_of_In; simpl; tauto.
  - destruct (VOLUME_STATE_MAP !! value) as [x|] eqn:E;
      [|apply list_elem_of_In; simpl; tauto].
    unfold VOLUME_STATE_MAP in E. apply elem_of_list_to_map_2 in E.
    table_cases E; apply list_elem_of_In; simpl; tauto.
  - destruct (IMAGE_STATE_MAP !! lower value) as [x|] eqn:E;
      [|apply list_elem_of_In; simpl; tauto].
    unfold IMAGE_STATE_MAP in E. apply elem_of_list_to_map_2 in E.
    remember (lower value) as lv.
    table_cases E; apply list_elem_of_In; simpl; tauto.
Qed.

Lemma lower_ascii_idem a : lower_ascii (lower_ascii a) = lower_ascii a.
Proof. destruct a as [[] [] [] [] [] [] [] []]; reflexivity. Qed.

Lemma lower_upper_ascii a : lower_ascii (upper_ascii a) = lower_ascii a.
Proof. destruct a as [[] [] [] [] [] [] [] []]; reflexivity. Qed.

Lemma lower_idem s : lower (lower s) = lower s.
Proof.
  induction s as [|a s IH]; [reflexivity|].
  simpl. rewrite lower_ascii_idem, IH. reflexivity.
Qed.

Lemma lower_upper s : lower (upper s) = lower s.
Proof.
  induction s as [|a s IH]; [reflexivity|].
  simpl. rewrite lower_upper_ascii, IH. reflexivity.
Qed.

(** On a state name made of ASCII characters the image state lookup does
    not mind the case: the name spelled in capitals, or in small letters,
    is mapped as the name itself. *)
Theorem map_image_state_any_case (value : string) :
  ascii_only value = true ->
  map_image_state (upper value) = map_image_state value /\
  map_image_state (lower value) = map_image_state value.
Proof.
  intros _.
  unfold map_image_state. rewrite lower_upper, lower_idem. split; reflexivity.
Qed.

Lemma map_image_state_any_case_witness :
  map_image_state (upper "Pending_Delete") = map_image_state "Pending_Delete" /\
  map_image_state (lower "Pending_Delete") = map_image_state "Pending_Delete".
Proof.
  apply (map_image_state_any_case "Pending_Delete"). reflexivity.
Defined.

(** ** access_resource *)

Lemma status_class (z : Z) :
  (z = 404 \/ z = 413)%Z \/ (z = 200 \/ z = 201 \/ z = 204)%Z \/
  z ∉ [404; 413; 200; 201; 204]%Z.
Proof.
  destruct (decide (z = 404%Z)); [auto|].
  destruct (decide (z = 413%Z)); [auto|].
  destruct (decide (z = 200%Z)); [auto|].
  destruct (decide (z = 201%Z)); [auto|].
  destruct (decide (z = 204%Z)); [auto 6|].
  right. right. intros Hin.
  repeat (apply elem_of_cons in Hin as [Hin|Hin]; [contradiction|]).
  revert Hin. apply not_elem_of_nil.
Qed.

Lemma other_status_neq (z : Z) :
  z ∉ [404; 413; 200; 201; 204]%Z ->
  (z <> 404 /\ z <> 413 /\ z <> 200 /\ z <> 201 /\ z <> 204)%Z.
Proof.
  intros Hout. repeat split; intros ->; apply Hout;
    apply list_elem_of_In; simpl; tauto.
Qed.

Lemma other_branch (z : Z) :
  z ∉ [404; 413; 200; 201; 204]%Z ->
  Z.eqb z 404 || Z.eqb z 413 = false /\
  Z.eqb z 200 || Z.eqb z 204 || Z.eqb z 201 = false.
Proof.
  intros Hout. apply other_status_neq in Hout as (H1 & H2 & H3 & H4 & H5).
  apply Z.eqb_neq in H1, H2, H3, H4, H5.
  rewrite H1, H2, H3, H4, H5. split; reflexivity.
Qed.

Lemma py_int_raises (s : string) (e : exn) : py_int s = Raise e -> e = ValueError.
Proof.
  unfold py_int. intros H.
  match type of H with
  | match ?x with _ => _ end = _ => destruct x; congruence
  end.
Qed.

Section ProbeEdges.

Variable backend :
  bool -> string -> Z -> string -> string -> option string ->
  gmap string string -> res response.
Variables (req : request) (method url : option string)
          (query_string body : option string).

Lemma access_resource_failed_run get_body e w :
  backend (out_ssl req) (server_name req) (server_port req)
          (out_method method) (out_url req url) body (out_headers req) = Raise e ->
  access_resource backend req method url get_body query_string body w
  = ({| log := log w
                 ++ [EConnect (out_ssl req) (server_name req) (server_port req);
                     ERequest (out_method method) (out_url req url) body
                              (out_headers req)]
                 ++ match e with
                    | TransportError => []
                    | _ => [EGetResponse]
                    end;
        unread := unread w |},
     Raise e).
Proof.
  intros Hb. unfold access_resource, round_trip, bind, emit. simpl.
  rewrite Hb. destruct e; simpl; rewrite <- ?app_assoc; reflexivity.
Qed.

Variable r : response.
Hypothesis answered :
  backend (out_ssl req) (server_name req) (server_port req)
          (out_method method) (out_url req url) body (out_headers req) = Ok r.

Lemma access_resource_other_run get_body w :
  status r ∉ [404; 413; 200; 201; 204]%Z ->
  access_resource backend req method url get_body query_string body w
  = ({| log := log w ++ sent req method url body ++ [EGetHeaders; EClose];
        unread := payload r |},
     Ok (true, msg r, None, status r)).
Proof.
  intros Hst. unfold access_resource. unfold bind at 1.
  rewrite (round_trip_run backend req method url body r answered).
  destruct (other_branch _ Hst) as [-> ->].
  unfold getheaders, bind, emit, ret. simpl.
  rewrite collect_map_to_list, <- !app_assoc. reflexivity.
Qed.

End ProbeEdges.

(** A backend status other than 404, 413, 200, 201 and 204 is reported as
    an existing resource without a body: the probe returns
    [(True, headers, None, status)] with the headers of the response, with
    or without [get_body]; it reads nothing of the body and closes the
    connection. *)
Theorem access_resource_other_status
    (backend : bool -> string -> Z -> string -> string -> option string ->
               gmap string string -> res response)
    (req : request) (method url : option string) (get_body : bool)
    (query_string body : option string) (r : response) (w : wire) :
  backend (out_ssl req) (server_name req) (server_port req)
          (out_method method) (out_url req url) body (out_headers req) = Ok r ->
  status r ∉ [404; 413; 200; 201; 204]%Z ->
  access_resource backend req method url get_body query_string body w
  = ({| log := log w ++ sent req method url body ++ [EGetHeaders; EClose];
        unread := payload r |},
     Ok (true, msg r, None, status r)).
Proof.
  intros Hans Hst. apply access_resource_other_run; assumption.
Qed.

Lemma access_resource_other_status_witness :
  access_resource (fixed_backend 500) plain_request None None true None None
                  fresh_wire
  = ({| log := [EConnect false "cloud" 8774;
                ERequest "GET" "/machines/7" None (out_headers plain_request);
                EGetResponse; EGetHeaders; EClose];
        unread := "hello world" |},
     Ok (true,
         <["content-length" := "5"]> {[ "content-type" := "application/json" ]},
         None, 500%Z)).
Proof.
  apply (access_resource_other_status (fixed_backend 500) plain_request
           None None true None None _ fresh_wire eq_refl).
  simpl. intros Hin.
  repeat (apply elem_of_cons in Hin as [Hin|Hin]; [discriminate|]).
  revert Hin. apply not_elem_of_nil.
Defined.

Ltac probe_returned H r mid :=
  simpl in H; injection H as <- <- <- <-; exists r, mid;
  split; [reflexivity|]; split; [reflexivity|];
  split; [simpl; rewrite <- ?app_assoc; reflexivity|];
  split; [intros Hin;
          repeat (apply elem_of_cons in Hin as [Hin|Hin]; [discriminate|]);
          revert Hin; apply not_elem_of_nil|].

(** Every normal return of the probe follows an answer of the backend and
    leaves the connection closed, by one [close] that is the last thing
    done.  The tuple returned carries the status of that answer; its first
    component is [False] exactly for 404 and 413, its headers are those of
    the response then and else the empty dict, and its body is not [None]
    exactly for 200, 201 and 204.  Without [get_body] nothing is read. *)
Theorem access_resource_return_shape
    (backend : bool -> string -> Z -> string -> string -> option string ->
               gmap string string -> res response)
    (req : request) (method url : option string) (get_body : bool)
    (query_string body : option string) (w : wire)
    (found : bool) (hs : gmap string string) (b : option string) (st : Z) :
  snd (access_resource backend req method url get_body query_string body w)
    = Ok (found, hs, b, st) ->
  exists r mid,
    backend (out_ssl req) (server_name req) (server_port req)
            (out_method method) (out_url req url) body (out_headers req) = Ok r /\
    st = status r /\
    log (fst (access_resource backend req method url get_body query_string
                              body w))
      = log w ++ sent req method url body ++ mid ++ [EClose] /\
    (EClose ∉ mid) /\
    (found = false <-> status r = 404%Z \/ status r = 413%Z) /\
    hs = (if found then msg r else ∅) /\
    (is_Some b <-> status r = 200%Z \/ status r = 201%Z \/ status r = 204%Z) /\
    (get_body = false -> forall amt, ERead amt ∉ mid).
Proof.
  intros Hret.
  destruct (backend (out_ssl req) (server_name req) (server_port req)
              (out_method method) (out_url req url) body (out_headers req))
    as [r|e] eqn:Hans.
  2:{ rewrite (access_resource_failed_run backend req method url query_string
                 body get_body e w Hans) in Hret. discriminate. }
  destruct (status_class (status r)) as [Hst|[Hst|Hst]].
  - rewrite (access_resource_not_found_run backend req method url
               query_string body r Hans get_body w Hst) in *.
    probe_returned Hret r (@nil event).
    split; [tauto|]. split; [reflexivity|].
    split; [split; [intros [? ?]; discriminate|lia]|].
    intros _ amt Hin. revert Hin. apply not_elem_of_nil.
  - destruct get_body.
    + destruct (msg r !! "content-length") as [len|] eqn:Hlen.
      * destruct (decide (len = "")) as [->|Hne].
        -- rewrite (access_resource_whole_body_run backend req method url
                      query_string body r Hans Hst w (or_intror Hlen)) in *.
           destruct (reader r None (payload r)) as [left [b'|e]];
             [|discriminate].
           probe_returned Hret r
             [EGetHeaders; EGetHeader "content-length"; ERead None].
           split; [split; [discriminate|lia]|]. split; [reflexivity|].
           split; [split; eauto|]. discriminate.
        -- destruct (py_int len) as [n|e] eqn:Hint.
           ++ rewrite (access_resource_bounded_body_run backend req method url
                         query_string body r Hans Hst w len n Hlen Hne Hint)
                in *.
              destruct (reader r (Some n) (payload r)) as [left [b'|e]];
                [|discriminate].
              probe_returned Hret r
                [EGetHeaders; EGetHeader "content-length"; ERead (Some n)].
              split; [split; [discriminate|lia]|]. split; [reflexivity|].
              split; [split; eauto|]. discriminate.
           ++ rewrite (access_resource_bad_length_run backend req method url
                         query_string body r Hans Hst w len e Hlen Hne Hint)
                in Hret. discriminate.
      * rewrite (access_resource_whole_body_run backend req method url
                   query_string body r Hans Hst w (or_introl Hlen)) in *.
        destruct (reader r None (payload r)) as [left [b'|e]];
          [|discriminate].
        probe_returned Hret r
          [EGetHeaders; EGetHeader "content-length"; ERead None].
        split; [split; [discriminate|lia]|]. split; [reflexivity|].
        split; [split; eauto|]. discriminate.
    + rewrite (access_resource_no_body_run backend req method url
                 query_string body r Hans Hst w) in *.
      probe_returned Hret r [EGetHeaders].
      split; [split; [discriminate|lia]|]. split; [reflexivity|].
      split; [split; eauto|].
      intros _ amt Hin.
      repeat (apply elem_of_cons in Hin as [Hin|Hin]; [discriminate|]).
      revert Hin. apply not_elem_of_nil.
  - rewrite (access_resource_other_run backend req method url
               query_string body r Hans get_body w Hst) in *.
    apply other_status_neq in Hst.
    probe_returned Hret r [EGetHeaders].
    split; [split; [discriminate|lia]|]. split; [reflexivity|].
    split; [split; [intros [? ?]; discriminate|lia]|].
    intros _ amt Hin.
    repeat (apply elem_of_cons in Hin as [Hin|Hin]; [discriminate|]).
    revert Hin. apply not_elem_of_nil.
Qed.

Lemma access_resource_return_shape_witness :
  exists mid,
    log (fst (access_resource (fixed_backend 204) plain_request None None
                              false None None fresh_wire))
      = log fresh_wire ++ sent plain_request None None None ++ mid ++ [EClose] /\
    (EClose ∉ mid) /\ (forall amt, ERead amt ∉ mid).
Proof.
  assert (Hrun :
    snd (access_resource (fixed_backend 204) plain_request None None false
                         None None fresh_wire)
    = Ok (true,
          <["content-length" := "5"]> {[ "content-type" := "application/json" ]},
          Some "", 204%Z)).
  { rewrite (access_resource_no_body_run (fixed_backend 204) plain_request
               None None None None _ eq_refl (or_intror (or_intror eq_refl))).
    reflexivity. }
  destruct (access_resource_return_shape (fixed_backend 204) plain_request
              None None false None None fresh_wire true _ (Some "") 204%Z Hrun)
    as (r & mid & _ & _ & Hlog & Hclose & _ & _ & _ & Hread).
  exists mid. split; [exact Hlog|]. split; [exact Hclose|].
  apply Hread. reflexivity.
Defined.



(** The headers sent to the backend are those of the inbound request, each
    with its value, and [Accept: application/json] when the inbound request
    has no [Accept] header of its own; an inbound [Accept] replaces the
    default, and no other header is added. *)
Theorem out_headers_inbound_first (req : request) :
  NoDup (headers req).*1 ->
  (forall name value,
     (name, value) ∈ headers req -> out_headers req !! name = Some value) /\
  ("Accept" ∉ (headers req).*1 ->
     out_headers req !! "Accept" = Some "application/json") /\
  (forall name, name <> "Accept" -> name ∉ (headers req).*1 ->
     out_headers req !! name = None).
Proof.
  intros Hnd. unfold out_headers. split; [|split].
  - intros name value Hin. rewrite (collect_lookup _ Hnd).
    rewrite (elem_of_list_to_map_1 _ _ _ Hnd Hin). reflexivity.
  - intros Hout. rewrite (collect_lookup _ Hnd).
    rewrite (not_elem_of_list_to_map_1 _ _ Hout). reflexivity.
  - intros name Hne Hout. rewrite (collect_lookup _ Hnd).
    rewrite (not_elem_of_list_to_map_1 _ _ Hout).
    apply lookup_singleton_ne. congruence.
Qed.

Lemma out_headers_inbound_first_witness :
  out_headers {| scheme := "https"; server_name := "cloud";
                 server_port := 8774; path := "/machines";
                 headers := [("Accept", "application/xml");
                             ("X-Auth-Token", "t")] |} !! "Accept"
  = Some "application/xml".
Proof.
  apply (out_headers_inbound_first
           {| scheme := "https"; server_name := "cloud";
              server_port := 8774; path := "/machines";
              headers := [("Accept", "application/xml");
                          ("X-Auth-Token", "t")] |}).
  - simpl. apply NoDup_cons. split.
    + intros Hin. apply elem_of_cons in Hin as [Hin|Hin]; [discriminate|].
      revert Hin. apply not_elem_of_nil.
    + apply NoDup_cons. split; [apply not_elem_of_nil|apply NoDup_nil_2].
  - simpl. apply elem_of_cons. left. reflexivity.
Defined.
